(** * GradingTone CPU renderer (OpenColorIO, ops/gradingtone/GradingToneOpCPU.cpp)

    A shallow embedding of the per-pixel tone-grading renderer and of its
    four [apply] variants, together with the properties of the renderer
    that its specification states.

    Single-precision arithmetic is the IEEE 754 binary32 arithmetic of
    [SpecFloat] (precision 24, infinities at exponent 128), every C++
    operator rounding once, to nearest even, with no contraction of a
    product and a sum into a fused multiply-add.  The model has one NaN, so
    NaN payloads are not distinguished.  [std::log] and [std::pow] (and the
    SSE helpers [sseLog2] and [ssePower]) are not part of IEEE 754
    arithmetic: they are parameters of the renderers that use them, as is
    the build flag [USE_SSE]. *)

From Stdlib Require Import ZArith Bool List String Lia PeanoNat.
From Stdlib Require Import Floats.SpecFloat.
Import ListNotations.

Set Implicit Arguments.

(* ================================================================== *)
(** * Binary32 and binary64 values *)

Module F32.

Definition prec : Z := 24.
Definition emax : Z := 128.

(** C++ [float]. *)
Definition float : Type := spec_float.

Definition add (a b : float) : float := SFadd prec emax a b.
Definition sub (a b : float) : float := SFsub prec emax a b.
Definition mul (a b : float) : float := SFmul prec emax a b.
Definition div (a b : float) : float := SFdiv prec emax a b.
Definition sqrtf (a : float) : float := SFsqrt prec emax a.
Definition ltb (a b : float) : bool := SFltb a b.
Definition gtb (a b : float) : bool := SFltb b a.
Definition eqb (a b : float) : bool := SFeqb a b.
Definition neqb (a b : float) : bool := negb (SFeqb a b).
Definition leb (a b : float) : bool := SFleb a b.

(** [std::min(a, b)] is [(b < a) ? b : a]; [std::max(a, b)] is
    [(a < b) ? b : a]. *)
Definition std_min (a b : float) : float := if ltb b a then b else a.
Definition std_max (a b : float) : float := if ltb a b then b else a.

Definition is_nan (a : float) : bool :=
  match a with S754_nan => true | _ => false end.

(** C++ [double], and the conversion [static_cast<float>(d)]. *)
Definition double : Type := spec_float.

Definition float_of_double (d : double) : float :=
  match d with
  | S754_finite s m e => binary_round prec emax s m e
  | _ => d
  end.

(** The literals of the source, as binary32 values [m * 2^e]. *)
Definition lit (m : positive) (e : Z) : float := S754_finite false m e.
Definition nlit (m : positive) (e : Z) : float := S754_finite true m e.

Definition f0_01 : float := lit 10737418 (-30).      (* 0.01f *)
Definition f1_99 : float := lit 16693330 (-23).      (* 1.99f *)
Definition f0_5 : float := lit 8388608 (-24).        (* 0.5f *)
Definition f1 : float := lit 8388608 (-23).          (* 1.f *)
Definition f2 : float := lit 8388608 (-22).          (* 2.f *)
Definition f4 : float := lit 8388608 (-21).          (* 4.f *)
Definition fm2 : float := nlit 8388608 (-22).        (* -2.f *)
Definition f0_99 : float := lit 16609444 (-24).      (* 0.99f *)
Definition f65504 : float := lit 16769024 (-8).      (* 65504.f *)
Definition f1_8125 : float := lit 15204352 (-23).    (* 1.8125f *)
Definition f0_8125 : float := lit 13631488 (-24).    (* 0.8125f *)
Definition f0_28125 : float := lit 9437184 (-25).    (* 0.28125f *)
Definition f0_71875 : float := lit 12058624 (-24).   (* 0.71875f *)
Definition f0_18 : float := lit 12079596 (-26).      (* 0.18f *)

(** [1.0] as a [double]. *)
Definition d1 : double := S754_finite false 4503599627370496 (-52).

(** [f] is a binary32 value nearest to the decimal [num / den]:
    [2 * |f - num/den| <= ulp f], with [ulp f = 2^e] for a normal [f]. *)
Definition nearest_to (num den : Z) (f : float) : bool :=
  match f with
  | S754_finite s m e =>
      let v := (if s then - Z.pos m else Z.pos m)%Z in
      (* |v * 2^e - num/den| * 2 <= 2^e, scaled by den * 2^(-e) *)
      ((0 <? den) && (e <? 0) && (Z.pos (digits2_pos m) =? prec)
       && (2 * Z.abs (v * den - num * 2 ^ (- e)) <=? den))%Z
  | _ => false
  end.

End F32.

Export F32.

Declare Scope f32_scope.
Delimit Scope f32_scope with f32.
Bind Scope f32_scope with float.

Infix "+" := F32.add : f32_scope.
Infix "-" := F32.sub : f32_scope.
Infix "*" := F32.mul : f32_scope.
Infix "/" := F32.div : f32_scope.
Infix "<" := F32.ltb : f32_scope.
Infix ">" := F32.gtb : f32_scope.
Infix "==" := F32.eqb (at level 70, no associativity) : f32_scope.
Infix "!=" := F32.neqb (at level 70, no associativity) : f32_scope.
Infix "<=" := F32.leb : f32_scope.

Local Open Scope f32_scope.

(* ================================================================== *)
(** * Data model *)

(** [enum RGBMChannel { R, G, B, M }]: the three colour channels and the
    master channel. *)
Inductive RGBMChannel : Type := R | G | B | M.

Definition channel_index (c : RGBMChannel) : nat :=
  match c with R => 0 | G => 1 | B => 2 | M => 3 end.

Definition is_master (c : RGBMChannel) : bool :=
  match c with M => true | _ => false end.

(** One pixel of packed RGBA data, the four floats [out[0] .. out[3]] that
    the curve evaluators receive through their [float * out] argument. *)
Record Pixel : Type := mkPixel { px0 : float; px1 : float; px2 : float; px3 : float }.

(** [out[i]], read and written. *)
Definition rd (out : Pixel) (i : nat) : float :=
  match i with
  | 0 => px0 out | 1 => px1 out | 2 => px2 out | _ => px3 out
  end.

Definition wr (out : Pixel) (i : nat) (x : float) : Pixel :=
  match i with
  | 0 => mkPixel x (px1 out) (px2 out) (px3 out)
  | 1 => mkPixel (px0 out) x (px2 out) (px3 out)
  | 2 => mkPixel (px0 out) (px1 out) x (px3 out)
  | _ => mkPixel (px0 out) (px1 out) (px2 out) x
  end.

(** [struct float3]. *)
Record float3 : Type := mkFloat3 { v0 : float; v1 : float; v2 : float }.

(** [float3(const float * v)]. *)
Definition float3_of (out : Pixel) : float3 :=
  mkFloat3 (px0 out) (px1 out) (px2 out).

(** [float3::setOnLimit], with the receiver's new value as the result. *)
Definition float3_setOnLimit (val : float3) (limit : float)
    (below above : float3) : float3 :=
  mkFloat3 (if v0 val < limit then v0 below else v0 above)
           (if v1 val < limit then v1 below else v1 above)
           (if v2 val < limit then v2 below else v2 above).

(** The [float3] operators. *)
Definition float3_add_f (a : float3) (p : float) : float3 :=
  mkFloat3 (v0 a + p) (v1 a + p) (v2 a + p).
Definition float3_f_add (p : float) (a : float3) : float3 := float3_add_f a p.
Definition float3_add (a b : float3) : float3 :=
  mkFloat3 (v0 a + v0 b) (v1 a + v1 b) (v2 a + v2 b).
Definition float3_sub_f (a : float3) (m : float) : float3 :=
  mkFloat3 (v0 a - m) (v1 a - m) (v2 a - m).
Definition float3_f_sub (m : float) (a : float3) : float3 :=
  mkFloat3 (m - v0 a) (m - v1 a) (m - v2 a).
Definition float3_mul_f (a : float3) (m : float) : float3 :=
  mkFloat3 (v0 a * m) (v1 a * m) (v2 a * m).
Definition float3_f_mul (m : float) (a : float3) : float3 := float3_mul_f a m.
Definition float3_mul (a b : float3) : float3 :=
  mkFloat3 (v0 a * v0 b) (v1 a * v1 b) (v2 a * v2 b).
Definition float3_div_f (a : float3) (d : float) : float3 :=
  mkFloat3 (v0 a / d) (v1 a / d) (v2 a / d).
Definition float3_div (a b : float3) : float3 :=
  mkFloat3 (v0 a / v0 b) (v1 a / v1 b) (v2 a / v2 b).

(** The operations that the templates [ComputeHS] and [ComputeWB] use on
    their [type] parameter, which is [float] for a colour channel and
    [float3] for the master channel: the arithmetic operators with a [float]
    or a [type] on either side, and the helper templates [setOnLimit],
    [Sqrt] and [Set]. *)
Class ToneType (T : Type) : Type := {
  add_tf : T -> float -> T;
  add_ft : float -> T -> T;
  add_tt : T -> T -> T;
  sub_tf : T -> float -> T;
  sub_ft : float -> T -> T;
  mul_tf : T -> float -> T;
  mul_ft : float -> T -> T;
  mul_tt : T -> T -> T;
  div_tf : T -> float -> T;
  div_tt : T -> T -> T;
  setOnLimit : T -> float -> T -> T -> T;
  Sqrt : T -> T;
  Set_ : RGBMChannel -> Pixel -> T -> Pixel
}.

(** [setOnLimit<float>], [Sqrt<float>] and [Set<float>]. *)
#[export] Instance ToneType_float : ToneType float := {
  add_tf := F32.add; add_ft := F32.add; add_tt := F32.add;
  sub_tf := F32.sub; sub_ft := F32.sub;
  mul_tf := F32.mul; mul_ft := F32.mul; mul_tt := F32.mul;
  div_tf := F32.div; div_tt := F32.div;
  setOnLimit := fun val limit below above => if val < limit then below else above;
  Sqrt := F32.sqrtf;
  Set_ := fun channel out val => wr out (channel_index channel) val
}.

(** The primary templates, at [float3]. *)
#[export] Instance ToneType_float3 : ToneType float3 := {
  add_tf := float3_add_f; add_ft := float3_f_add; add_tt := float3_add;
  sub_tf := float3_sub_f; sub_ft := float3_f_sub;
  mul_tf := float3_mul_f; mul_ft := float3_f_mul; mul_tt := float3_mul;
  div_tf := float3_div_f; div_tt := float3_div;
  setOnLimit := float3_setOnLimit;
  Sqrt := fun val => mkFloat3 (sqrtf (v0 val)) (sqrtf (v1 val)) (sqrtf (v2 val));
  Set_ := fun _ out val => mkPixel (v0 val) (v1 val) (v2 val) (px3 out)
}.

(** In these operators the colon is on the side of the [type] operand. *)
Declare Scope tone_scope.
Delimit Scope tone_scope with tone.
Notation "a :+ p" := (add_tf a p) (at level 50, left associativity) : tone_scope.
Notation "p +: a" := (add_ft p a) (at level 50, left associativity) : tone_scope.
Notation "a :+: b" := (add_tt a b) (at level 50, left associativity) : tone_scope.
Notation "a :- p" := (sub_tf a p) (at level 50, left associativity) : tone_scope.
Notation "p -: a" := (sub_ft p a) (at level 50, left associativity) : tone_scope.
Notation "a :* p" := (mul_tf a p) (at level 40, left associativity) : tone_scope.
Notation "p *: a" := (mul_ft p a) (at level 40, left associativity) : tone_scope.
Notation "a :*: b" := (mul_tt a b) (at level 40, left associativity) : tone_scope.
Notation "a :/ p" := (div_tf a p) (at level 40, left associativity) : tone_scope.
Notation "a :/: b" := (div_tt a b) (at level 40, left associativity) : tone_scope.

Local Open Scope tone_scope.

(** [GradingRGBMSW]: one control per channel, stored as [double]. *)
Record GradingRGBMSW : Type := mkRGBMSW {
  m_red : double; m_green : double; m_blue : double; m_master : double;
  m_start : double; m_width : double
}.

(** [GradingTone]: the user-facing controls. *)
Record GradingTone : Type := mkGradingTone {
  m_blacks : GradingRGBMSW;
  m_shadows : GradingRGBMSW;
  m_midtones : GradingRGBMSW;
  m_highlights : GradingRGBMSW;
  m_whites : GradingRGBMSW;
  m_scontrast : double
}.

(** Modelled from the spec: [GetChannelValue] is declared outside this file;
    it is the control-value accessor, returning as a [float] the scalar of
    one band for one channel. *)
Definition GetChannelValue (value : GradingRGBMSW) (channel : RGBMChannel) : float :=
  float_of_double
    match channel with
    | R => m_red value | G => m_green value | B => m_blue value | M => m_master value
    end.

(** Modelled from the spec: [Clamp] is declared in MathUtils.h, outside this
    file; the control is clamped to [[lo, hi]]. *)
Definition Clamp (a lo hi : float) : float := std_min (std_max lo a) hi.

(** [GradingTonePreRender]: the precomputed coefficient table.  An array
    [float m_midX[4][6]] is a function of its indices. *)
Record GradingTonePreRender : Type := mkPreRender {
  m_midX : RGBMChannel -> nat -> float;
  m_midY : RGBMChannel -> nat -> float;
  m_midM : RGBMChannel -> nat -> float;
  m_hsX : nat -> RGBMChannel -> nat -> float;
  m_hsY : nat -> RGBMChannel -> nat -> float;
  m_hsM : nat -> RGBMChannel -> nat -> float;
  m_wbX : nat -> RGBMChannel -> nat -> float;
  m_wbY : nat -> RGBMChannel -> nat -> float;
  m_wbM : nat -> RGBMChannel -> nat -> float;
  m_wbGain : nat -> RGBMChannel -> float;
  m_scX : nat -> nat -> float;
  m_scY : nat -> nat -> float;
  m_scM : nat -> nat -> float;
  m_pivot : float
}.

(* ================================================================== *)
(** * The curve evaluators *)

(** [GradingToneFwdOpCPU::mids], the branch [channel != M]: the new value of
    [out[channel]]. *)
Definition mids_scalar (x0 x1 x2 x3 x4 x5 y0 y1 y2 y3 y4 y5
                        m0 m1 m2 m3 m4 m5 : float) (t : float) : float :=
  let tL := (t - x0) / (x1 - x0) in
  let tM := (t - x1) / (x2 - x1) in
  let tR := (t - x2) / (x3 - x2) in
  let tR2 := (t - x3) / (x4 - x3) in
  let tR3 := (t - x4) / (x5 - x4) in
  let fL := tL * (x1 - x0) * ( tL * f0_5 * (m1 - m0) + m0 ) + y0 in
  let fM := tM * (x2 - x1) * ( tM * f0_5 * (m2 - m1) + m1 ) + y1 in
  let fR := tR * (x3 - x2) * ( tR * f0_5 * (m3 - m2) + m2 ) + y2 in
  let fR2 := tR2 * (x4 - x3) * ( tR2 * f0_5 * (m4 - m3) + m3 ) + y3 in
  let fR3 := tR3 * (x5 - x4) * ( tR3 * f0_5 * (m5 - m4) + m4 ) + y4 in
  let res := if t < x1 then fL else fM in
  let res := if t > x2 then fR else res in
  let res := if t > x3 then fR2 else res in
  let res := if t > x4 then fR3 else res in
  let res := if t < x0 then y0 + (t - x0) * m0 else res in
  let res := if t > x5 then y5 + (t - x5) * m5 else res in
  res.

(** [GradingToneFwdOpCPU::mids], the branch for the master channel: the new
    values of [out[0]], [out[1]] and [out[2]]. *)
Definition mids_master (x0 x1 x2 x3 x4 x5 y0 y1 y2 y3 y4 y5
                        m0 m1 m2 m3 m4 m5 : float) (t : float3) : float3 :=
  let tL := (t :- x0) :/ (x1 - x0) in
  let tM := (t :- x1) :/ (x2 - x1) in
  let tR := (t :- x2) :/ (x3 - x2) in
  let tR2 := (t :- x3) :/ (x4 - x3) in
  let tR3 := (t :- x4) :/ (x5 - x4) in
  let fL := tL :* (x1 - x0) :*: ( tL :* f0_5 :* (m1 - m0) :+ m0 ) :+ y0 in
  let fM := tM :* (x2 - x1) :*: ( tM :* f0_5 :* (m2 - m1) :+ m1 ) :+ y1 in
  let fR := tR :* (x3 - x2) :*: ( tR :* f0_5 :* (m3 - m2) :+ m2 ) :+ y2 in
  let fR2 := tR2 :* (x4 - x3) :*: ( tR2 :* f0_5 :* (m4 - m3) :+ m3 ) :+ y3 in
  let fR3 := tR3 :* (x5 - x4) :*: ( tR3 :* f0_5 :* (m5 - m4) :+ m4 ) :+ y4 in
  let fR4 := (t :- x0) :* m0 :+ y0 in
  let fR5 := (t :- x5) :* m5 :+ y5 in
  let res := float3_setOnLimit t x1 fL fM in
  let res := float3_setOnLimit t x2 res fR in
  let res := float3_setOnLimit t x3 res fR2 in
  let res := float3_setOnLimit t x4 res fR3 in
  let res := float3_setOnLimit t x0 fR4 res in
  let res := float3_setOnLimit t x5 res fR5 in
  res.

(** [GradingToneFwdOpCPU::mids]. *)
Definition mids (v : GradingTone) (vpr : GradingTonePreRender)
    (channel : RGBMChannel) (out : Pixel) : Pixel :=
  let mid_adj := Clamp (GetChannelValue (m_midtones v) channel) f0_01 f1_99 in
  if mid_adj != f1 then
    let x0 := m_midX vpr channel 0 in
    let x1 := m_midX vpr channel 1 in
    let x2 := m_midX vpr channel 2 in
    let x3 := m_midX vpr channel 3 in
    let x4 := m_midX vpr channel 4 in
    let x5 := m_midX vpr channel 5 in
    let y0 := m_midY vpr channel 0 in
    let y1 := m_midY vpr channel 1 in
    let y2 := m_midY vpr channel 2 in
    let y3 := m_midY vpr channel 3 in
    let y4 := m_midY vpr channel 4 in
    let y5 := m_midY vpr channel 5 in
    let m0 := m_midM vpr channel 0 in
    let m1 := m_midM vpr channel 1 in
    let m2 := m_midM vpr channel 2 in
    let m3 := m_midM vpr channel 3 in
    let m4 := m_midM vpr channel 4 in
    let m5 := m_midM vpr channel 5 in
    if negb (is_master channel) then
      let t := rd out (channel_index channel) in
      wr out (channel_index channel)
         (mids_scalar x0 x1 x2 x3 x4 x5 y0 y1 y2 y3 y4 y5 m0 m1 m2 m3 m4 m5 t)
    else
      let t := float3_of out in
      let res := mids_master x0 x1 x2 x3 x4 x5 y0 y1 y2 y3 y4 y5 m0 m1 m2 m3 m4 m5 t in
      mkPixel (v0 res) (v1 res) (v2 res) (px3 out)
  else out.

(** The template [ComputeHS]: the value [res] that its final [Set] stores. *)
Definition ComputeHS_res {T : Type} `{ToneType T}
    (val x0 x1 x2 y0 y1 y2 m0 m2 : float) (t : T) : T :=
  let res := t in
  if val < f1 then
    let tL := (t :- x0) :/ (x1 - x0) in
    let tR := (t :- x1) :/ (x2 - x1) in
    let fL := y0 *: (f1 -: tL :*: tL) :+: y1 *: tL :*: tL
              :+: m0 *: (f1 -: tL) :*: tL :* (x1 - x0) in
    let fR := y1 *: (f1 -: tR) :*: (f1 -: tR) :+: y2 *: (f2 -: tR) :*: tR
              :+: m2 *: (tR :- f1) :*: tR :* (x2 - x1) in
    let res := setOnLimit t x1 fL fR in
    let r0 := (t :- x0) :* m0 :+ y0 in
    let res := setOnLimit t x0 r0 res in
    let r2 := (t :- x2) :* m2 :+ y2 in
    let res := setOnLimit t x2 res r2 in
    res
  else if val > f1 then
    let bL := m0 * (x1 - x0) in
    let aL := y1 - y0 - m0 * (x1 - x0) in
    let cL := y0 -: t in
    let discrimL := Sqrt (bL * bL -: f4 * aL *: cL) in
    let outL := (fm2 *: cL) :/: (discrimL :+ bL) :* (x1 - x0) :+ x0 in
    let bR := f2 * y2 - f2 * y1 - m2 * (x2 - x1) in
    let aR := y1 - y2 + m2 * (x2 - x1) in
    let cR := y1 -: t in
    let discrimR := Sqrt (bR * bR -: f4 * aR *: cR) in
    let outR := (fm2 *: cR) :/: (discrimR :+ bR) :* (x2 - x1) :+ x1 in
    let res := setOnLimit t y1 outL outR in
    let r0 := (t :- y0) :/ m0 :+ x0 in
    let res := setOnLimit t y0 r0 res in
    let r2 := (t :- y2) :/ m2 :+ x2 in
    let res := setOnLimit t y2 res r2 in
    res
  else res.

(** The template [ComputeHS]. *)
Definition ComputeHS {T : Type} `{ToneType T} (channel : RGBMChannel) (out : Pixel)
    (val x0 x1 x2 y0 y1 y2 m0 m2 : float) (t : T) : Pixel :=
  Set_ channel out (ComputeHS_res val x0 x1 x2 y0 y1 y2 m0 m2 t).

(** [GradingToneFwdOpCPU::highlightShadow]. *)
Definition highlightShadow (v : GradingTone) (vpr : GradingTonePreRender)
    (channel : RGBMChannel) (isShadow : bool) (out : Pixel) : Pixel :=
  let val := if isShadow then GetChannelValue (m_shadows v) channel
             else GetChannelValue (m_highlights v) channel in
  let val := if negb isShadow then f2 - val else val in
  if val == f1 then out
  else
    let i := if isShadow then 1%nat else 0%nat in
    let x0 := m_hsX vpr i channel 0 in
    let x1 := m_hsX vpr i channel 1 in
    let x2 := m_hsX vpr i channel 2 in
    let y0 := m_hsY vpr i channel 0 in
    let y1 := m_hsY vpr i channel 1 in
    let y2 := m_hsY vpr i channel 2 in
    let m0 := m_hsM vpr i channel 0 in
    let m2 := m_hsM vpr i channel 1 in
    if negb (is_master channel) then
      let t := rd out (channel_index channel) in
      ComputeHS channel out val x0 x1 x2 y0 y1 y2 m0 m2 t
    else
      let t := float3_of out in
      ComputeHS channel out val x0 x1 x2 y0 y1 y2 m0 m2 t.

(** The template [ComputeWB].  Its argument [t] is a local variable of the
    caller, so the assignments to [t] are not visible outside. *)
Definition ComputeWB {T : Type} `{ToneType T} (channel : RGBMChannel) (isBlack : bool)
    (out : Pixel) (val x0 x1 y0 y1 m0 m1 gain : float) (t : T) : Pixel :=
  let mtest := if negb isBlack then val else f2 - val in
  if mtest < f1 then
    (* Slope is decreasing case. *)
    let tlocal := (t :- x0) :/ (x1 - x0) in
    let res := tlocal :* (x1 - x0) :*: (tlocal :* f0_5 :* (m1 - m0) :+ m0) :+ y0 in
    let res0 := y0 +: (t :- x0) :* m0 in
    let res := setOnLimit t x0 res0 res in
    let res1 := y1 +: (t :- x1) :* m1 in
    let res := setOnLimit t x1 res res1 in
    Set_ channel out res
  else if mtest > f1 then
    (* Slope is increasing case. *)
    let t := if negb isBlack then (t :- x0) :* gain :+ x0
             else (t :- x1) :* gain :+ x1 in
    let a := f0_5 * (m1 - m0) * (x1 - x0) in
    let b := m0 * (x1 - x0) in
    let c := y0 -: t in
    let discrim := Sqrt (b * b -: f4 * a *: c) in
    let tmp := (fm2 *: c) :/: (discrim :+ b) in
    let res := tmp :* (x1 - x0) :+ x0 in
    let res0 := x0 +: (t :- y0) :/ m0 in
    let res := setOnLimit t y0 res0 res in
    if negb isBlack then
      let res := (res :- x0) :/ gain :+ x0 in
      (* Quadratic extrapolation for better HDR control. *)
      let new_y1 := (x1 - x0) / gain + x0 in
      let xd := x0 + (x1 - x0) * f0_99 in
      let md := m0 + (xd - x0) * (m1 - m0) / (x1 - x0) in
      let md := f1 / md in
      let aim_m := (f1 / m1 - md) / (x1 - xd) in
      let bb := f1 / m1 - aim_m * x1 in
      let cc := new_y1 - bb * x1 - f0_5 * aim_m * x1 * x1 in
      let t := (t :- x0) :/ gain :+ x0 in
      let res1 := (f0_5 * aim_m *: t :+ bb) :*: t :+ cc in
      let res := setOnLimit t x1 res res1 in
      Set_ channel out res
    else
      let res1 := x1 +: (t :- y1) :/ m1 in
      let res := setOnLimit t y1 res res1 in
      let res := (res :- x1) :/ gain :+ x1 in
      Set_ channel out res
  else out.

(** [GradingToneFwdOpCPU::whiteBlack]. *)
Definition whiteBlack (v : GradingTone) (vpr : GradingTonePreRender)
    (channel : RGBMChannel) (isBlack : bool) (out : Pixel) : Pixel :=
  let val := if isBlack then GetChannelValue (m_blacks v) channel
             else GetChannelValue (m_whites v) channel in
  let i := if isBlack then 1%nat else 0%nat in
  let x0 := m_wbX vpr i channel 0 in
  let x1 := m_wbX vpr i channel 1 in
  let y0 := m_wbY vpr i channel 0 in
  let y1 := m_wbY vpr i channel 1 in
  let m0 := m_wbM vpr i channel 0 in
  let m1 := m_wbM vpr i channel 1 in
  let gain := m_wbGain vpr i channel in
  if negb (is_master channel) then
    let t := rd out (channel_index channel) in
    ComputeWB channel isBlack out val x0 x1 y0 y1 m0 m1 gain t
  else
    let t := float3_of out in
    ComputeWB channel isBlack out val x0 x1 y0 y1 m0 m1 gain t.

(** The remapping of the contrast control in [scontrast]
    ("Limit the range of values to prevent reversals"). *)
Definition scontrast_remap (contrast : float) : float :=
  if contrast > f1 then f1 / (f1_8125 - f0_8125 * std_min contrast f1_99)
  else f0_28125 + f0_71875 * std_max contrast f0_01.

(** The body of [scontrast] under [if (contrast != 1.)]: the final value of
    [outColor], from the already remapped [contrast]. *)
Definition scontrast_color (vpr : GradingTonePreRender) (contrast : float)
    (t : float3) : float3 :=
  let outColor := (t :- m_pivot vpr) :* contrast :+ m_pivot vpr in
  (* Top end *)
  let outColor :=
    let x1 := m_scX vpr 0 1 in
    let x2 := m_scX vpr 0 2 in
    let y1 := m_scY vpr 0 1 in
    let y2 := m_scY vpr 0 2 in
    let m0 := m_scM vpr 0 0 in
    let m3 := m_scM vpr 0 1 in
    let tR := (t :- x1) :/ (x2 - x1) in
    let res := tR :* (x2 - x1) :*: ( tR :* f0_5 :* (m3 - m0) :+ m0 ) :+ y1 in
    let outColor := setOnLimit t x1 outColor res in
    let res2 := y2 +: (t :- x2) :* m3 in
    setOnLimit t x2 outColor res2 in
  (* Bottom end *)
  let outColor :=
    let x1 := m_scX vpr 1 1 in
    let x2 := m_scX vpr 1 2 in
    let y1 := m_scY vpr 1 1 in
    let m0 := m_scM vpr 1 0 in
    let m3 := m_scM vpr 1 1 in
    let tR := (t :- x1) :/ (x2 - x1) in
    let res := tR :* (x2 - x1) :*: (tR :* f0_5 :* (m3 - m0) :+ m0) :+ y1 in
    let outColor := setOnLimit t x2 res outColor in
    let res1 := y1 +: (t :- x1) :* m0 in
    setOnLimit t x1 res1 outColor in
  outColor.

(** [GradingToneFwdOpCPU::scontrast]. *)
Definition scontrast (v : GradingTone) (vpr : GradingTonePreRender)
    (out : Pixel) : Pixel :=
  let contrast := float_of_double (m_scontrast v) in
  if contrast != f1 then
    let contrast := scontrast_remap contrast in
    let t := float3_of out in
    let outColor := scontrast_color vpr contrast t in
    mkPixel (v0 outColor) (v1 outColor) (v2 outColor) (px3 out)
  else out.

(** [ClampMaxRGB]. *)
Definition ClampMaxRGB (out : Pixel) : Pixel :=
  mkPixel (std_min (px0 out) f65504) (std_min (px1 out) f65504)
          (std_min (px2 out) f65504) (px3 out).

(* ================================================================== *)
(** * Image buffers *)

(** The image memory: one [float] per address, addresses counted in floats.
    [inImg] and [outImg] are addresses in the same memory, so that the two
    buffers of [apply] may be one buffer.  Every address is readable and
    writable: the caller owns [4 * numPixels] floats from each pointer. *)
Definition Mem : Type := nat -> float.

Definition store (m : Mem) (a : nat) (x : float) : Mem :=
  fun b => if Nat.eqb b a then x else m b.

(** The four floats at [p], as the pixel [p[0] .. p[3]]. *)
Definition load_pixel (m : Mem) (p : nat) : Pixel :=
  mkPixel (m p) (m (p + 1)%nat) (m (p + 2)%nat) (m (p + 3)%nat).

Definition store_pixel (m : Mem) (p : nat) (px : Pixel) : Mem :=
  store (store (store (store m p (px0 px)) (p + 1) (px1 px)) (p + 2) (px2 px))
        (p + 3) (px3 px).

(** [memcpy(dst, src, n * sizeof(float))]: all [n] floats are read before
    any is written, which is what [memcpy] does on buffers that are equal
    or do not overlap. *)
Definition memcpy (m : Mem) (dst src n : nat) : Mem :=
  fun a => if ((dst <=? a) && (a <? dst + n))%nat then m (src + (a - dst))%nat else m a.

(** A call [f(..., out)] of a function that reads and writes the pixel at
    the pointer [out]. *)
Definition on_out (f : Pixel -> Pixel) (out : nat) (m : Mem) : Mem :=
  store_pixel m out (f (load_pixel m out)).

(** [PixelSize], in floats. *)
Definition PixelFloats : nat := 4.

(* ================================================================== *)
(** * The renderers *)

(** [GradingStyle] and [TransformDirection], both declared outside this
    file.  [TRANSFORM_DIR_OTHER] stands for any value that is neither
    forward nor inverse. *)
Inductive GradingStyle : Type := GRADING_LOG | GRADING_LIN | GRADING_VIDEO.
Inductive TransformDirection : Type :=
  TRANSFORM_DIR_FORWARD | TRANSFORM_DIR_INVERSE | TRANSFORM_DIR_OTHER.

(** [DynamicPropertyGradingToneImpl], as far as the renderers read it. *)
Record DynamicPropertyGradingToneImpl : Type := mkDynProp {
  getValue : GradingTone;
  getComputedValue : GradingTonePreRender;
  getLocalBypass : bool;
  isDynamic : bool
}.

(** [GradingToneOpData], as far as the renderers read it. *)
Record GradingToneOpData : Type := mkOpData {
  getDirection : TransformDirection;
  getStyle : GradingStyle;
  getDynamicPropertyInternal : DynamicPropertyGradingToneImpl
}.

(** Four SSE lanes, and a lane mask as [_mm_cmpgt_ps] produces it. *)
Record m128 : Type := mk128 { l0 : float; l1 : float; l2 : float; l3 : float }.
Record mask128 : Type := mkMask { k0 : bool; k1 : bool; k2 : bool; k3 : bool }.

Definition mm_set1_ps (x : float) : m128 := mk128 x x x x.
Definition mm_loadu_ps (m : Mem) (p : nat) : m128 :=
  mk128 (m p) (m (p + 1)%nat) (m (p + 2)%nat) (m (p + 3)%nat).
Definition mm_storeu_ps (m : Mem) (p : nat) (x : m128) : Mem :=
  store (store (store (store m p (l0 x)) (p + 1) (l1 x)) (p + 2) (l2 x)) (p + 3) (l3 x).
Definition mm_lanes (f : float -> float -> float) (a b : m128) : m128 :=
  mk128 (f (l0 a) (l0 b)) (f (l1 a) (l1 b)) (f (l2 a) (l2 b)) (f (l3 a) (l3 b)).
Definition mm_add_ps : m128 -> m128 -> m128 := mm_lanes F32.add.
Definition mm_sub_ps : m128 -> m128 -> m128 := mm_lanes F32.sub.
Definition mm_mul_ps : m128 -> m128 -> m128 := mm_lanes F32.mul.
Definition mm_cmpgt_ps (a b : m128) : mask128 :=
  mkMask (l0 a > l0 b) (l1 a > l1 b) (l2 a > l2 b) (l3 a > l3 b).
(** [_mm_or_ps(_mm_and_ps(flag, a), _mm_andnot_ps(flag, b))]: lane by lane,
    [a] where the mask is set and [b] where it is clear. *)
Definition mm_select (flag : mask128) (a b : m128) : m128 :=
  mk128 (if k0 flag then l0 a else l0 b) (if k1 flag then l1 a else l1 b)
        (if k2 flag then l2 a else l2 b) (if k3 flag then l3 a else l3 b).

(** What the build and the C library fix: whether [USE_SSE] is defined, the
    [float] overloads of [std::log] and of [std::pow(2.0f, .)], and the SSE
    helpers [sseLog2] and [ssePower] of SSE.h. *)
Record Platform : Type := mkPlatform {
  USE_SSE : bool;
  std_log : float -> float;
  std_pow2 : float -> float;
  sseLog2 : m128 -> m128;
  ssePower : m128 -> m128 -> m128
}.

(** The constants of [GradingToneLinearFwdOpCPU::apply]. *)
Definition xbrk : float := lit 8873053 (-31).     (* 0.0041318374739483946f *)
Definition shift : float := nlit 10847359 (-36).  (* -0.000157849851665374f *)
Definition m_ : float := f1 / (f0_18 + shift).    (* 1.f / (0.18f + shift) *)
Definition gain : float := lit 11895918 (-15).    (* 363.034608563f *)
Definition offs : float := nlit 14680064 (-21).   (* -7.f *)
Definition ybrk : float := nlit 11534336 (-21).   (* -5.5f *)
Definition base2 : float := lit 12102203 (-23).   (* 1.4426950408889634f *)

(** The calls of the curve evaluators in the body of the pixel loop, the same
    in [GradingToneFwdOpCPU::apply] and [GradingToneLinearFwdOpCPU::apply]. *)
Definition curve_calls (v : GradingTone) (vpr : GradingTonePreRender)
    (out : nat) (m : Mem) : Mem :=
  let m := on_out (mids v vpr R) out m in
  let m := on_out (mids v vpr G) out m in
  let m := on_out (mids v vpr B) out m in
  let m := on_out (mids v vpr M) out m in

  let m := on_out (highlightShadow v vpr R false) out m in
  let m := on_out (highlightShadow v vpr G false) out m in
  let m := on_out (highlightShadow v vpr B false) out m in
  let m := on_out (highlightShadow v vpr M false) out m in

  let m := on_out (whiteBlack v vpr R false) out m in
  let m := on_out (whiteBlack v vpr G false) out m in
  let m := on_out (whiteBlack v vpr B false) out m in
  let m := on_out (whiteBlack v vpr M false) out m in

  let m := on_out (highlightShadow v vpr R true) out m in
  let m := on_out (highlightShadow v vpr G true) out m in
  let m := on_out (highlightShadow v vpr B true) out m in
  let m := on_out (highlightShadow v vpr M true) out m in

  let m := on_out (whiteBlack v vpr R true) out m in
  let m := on_out (whiteBlack v vpr G true) out m in
  let m := on_out (whiteBlack v vpr B true) out m in
  let m := on_out (whiteBlack v vpr M true) out m in

  on_out (scontrast v vpr) out m.

(** The loop [for (long idx = 0; idx < numPixels; ++idx) { body; in += 4;
    out += 4; }] of both forward renderers, with [n] pixels left. *)
Fixpoint pixel_loop (body : nat -> nat -> Mem -> Mem)
    (n : nat) (in_ out : nat) (m : Mem) : Mem :=
  match n with
  | O => m
  | S n' => pixel_loop body n' (in_ + 4) (out + 4) (body in_ out m)
  end.

(** The body of the pixel loop of [GradingToneFwdOpCPU::apply]. *)
Definition Fwd_body (v : GradingTone) (vpr : GradingTonePreRender)
    (in_ out : nat) (m : Mem) : Mem :=
  (* NB: 'in' and 'out' could be pointers to the same memory buffer. *)
  let m := memcpy m out in_ PixelFloats in
  let m := curve_calls v vpr out m in
  on_out ClampMaxRGB out m.

(** "Lin to log" and "Log to lin", the branches without [USE_SSE]. *)
Definition lin_to_log (pf : Platform) (x : float) : float :=
  if x < xbrk then x * gain + offs else base2 * std_log pf ((x + shift) * m_).

Definition log_to_lin (pf : Platform) (x : float) : float :=
  if x < ybrk then (x - offs) / gain else std_pow2 pf x * (f0_18 + shift) - shift.

(** "Lin to log" and "Log to lin", the branches under [USE_SSE]. *)
Definition sse_lin_to_log (pf : Platform) (pix : m128) : m128 :=
  let flag := mm_cmpgt_ps pix (mm_set1_ps xbrk) in
  let pixLin := mm_mul_ps pix (mm_set1_ps gain) in
  let pixLin := mm_add_ps pixLin (mm_set1_ps offs) in
  let pix := mm_add_ps pix (mm_set1_ps shift) in
  let pix := mm_mul_ps pix (mm_set1_ps m_) in
  let pix := sseLog2 pf pix in
  mm_select flag pix pixLin.

Definition sse_log_to_lin (pf : Platform) (pix : m128) : m128 :=
  let flag := mm_cmpgt_ps pix (mm_set1_ps ybrk) in
  let pixLin := mm_sub_ps pix (mm_set1_ps offs) in
  let pixLin := mm_mul_ps pixLin (mm_set1_ps (f1 / gain)) in
  let pix := ssePower pf (mm_set1_ps f2) pix in
  let pix := mm_mul_ps pix (mm_set1_ps (shift + f0_18)) in
  let pix := mm_sub_ps pix (mm_set1_ps shift) in
  mm_select flag pix pixLin.

(** The block "Lin to log" of the loop body, under [USE_SSE] and without. *)
Definition lin_to_log_block (pf : Platform) (in_ out : nat) (m : Mem) : Mem :=
  if USE_SSE pf then
    let pix := mm_loadu_ps m in_ in
    mm_storeu_ps m out (sse_lin_to_log pf pix)
  else
    let m := store m out (lin_to_log pf (m in_)) in
    let m := store m (out + 1) (lin_to_log pf (m (in_ + 1)%nat)) in
    let m := store m (out + 2) (lin_to_log pf (m (in_ + 2)%nat)) in
    store m (out + 3) (m (in_ + 3)%nat).

(** The block "Log to lin" of the loop body, under [USE_SSE] and without. *)
Definition log_to_lin_block (pf : Platform) (out : nat) (m : Mem) : Mem :=
  if USE_SSE pf then
    let pix := mm_loadu_ps m out in
    mm_storeu_ps m out (sse_log_to_lin pf pix)
  else
    let m := store m out (log_to_lin pf (m out)) in
    let m := store m (out + 1) (log_to_lin pf (m (out + 1)%nat)) in
    store m (out + 2) (log_to_lin pf (m (out + 2)%nat)).

(** The body of the pixel loop of [GradingToneLinearFwdOpCPU::apply]. *)
Definition LinearFwd_body (pf : Platform) (v : GradingTone) (vpr : GradingTonePreRender)
    (in_ out : nat) (m : Mem) : Mem :=
  let m := lin_to_log_block pf in_ out m in
  let m := curve_calls v vpr out m in
  let m := log_to_lin_block pf out m in
  on_out ClampMaxRGB out m.

(** How a call of [apply] ends: it returns, or it throws an [Exception];
    either way with the image memory as the call left it. *)
Inductive Outcome : Type :=
| Returned (m : Mem)
| Thrown (what : string) (m : Mem).

(** The four renderers, each with the members [m_gt] and [m_style] of
    [GradingToneOpCPU]. *)
Inductive OpCPU : Type :=
| GradingToneFwdOpCPU (m_gt : DynamicPropertyGradingToneImpl) (m_style : GradingStyle)
| GradingToneLinearFwdOpCPU (m_gt : DynamicPropertyGradingToneImpl) (m_style : GradingStyle)
| GradingToneRevOpCPU (m_gt : DynamicPropertyGradingToneImpl) (m_style : GradingStyle)
| GradingToneLinearRevOpCPU (m_gt : DynamicPropertyGradingToneImpl) (m_style : GradingStyle).

(** The bypass branch that opens both forward [apply] functions.  The
    byte count [numPixels * PixelSize] is meaningful for [numPixels >= 0]. *)
Definition bypass_copy (inImg outImg : nat) (numPixels : Z) (m : Mem) : Mem :=
  if negb (Nat.eqb inImg outImg)
  then memcpy m outImg inImg (Z.to_nat (numPixels * 4))
  else m.

(** [OpCPU::apply], dispatched on the renderer. *)
Definition apply (pf : Platform) (op : OpCPU) (inImg outImg : nat) (numPixels : Z)
    (m : Mem) : Outcome :=
  match op with
  | GradingToneFwdOpCPU m_gt _ =>
      if getLocalBypass m_gt then Returned (bypass_copy inImg outImg numPixels m)
      else
        let v := getValue m_gt in
        let vpr := getComputedValue m_gt in
        Returned (pixel_loop (Fwd_body v vpr) (Z.to_nat numPixels) inImg outImg m)
  | GradingToneLinearFwdOpCPU m_gt _ =>
      if getLocalBypass m_gt then Returned (bypass_copy inImg outImg numPixels m)
      else
        let v := getValue m_gt in
        let vpr := getComputedValue m_gt in
        Returned (pixel_loop (LinearFwd_body pf v vpr) (Z.to_nat numPixels) inImg outImg m)
  | GradingToneRevOpCPU _ _ =>
      Thrown "GradingTone inverse CPU not implemented." m
  | GradingToneLinearRevOpCPU _ _ =>
      Thrown "GradingTone inverse CPU not implemented." m
  end.

(** A value, or an [Exception] with its message. *)
Inductive Result (A : Type) : Type :=
| Ok (a : A)
| Exception (what : string).
Arguments Ok {A} a.
Arguments Exception {A} what.

(** [GetGradingToneCPURenderer]. *)
Definition GetGradingToneCPURenderer (tone : GradingToneOpData) : Result OpCPU :=
  let m_gt := getDynamicPropertyInternal tone in
  let m_style := getStyle tone in
  match getDirection tone with
  | TRANSFORM_DIR_FORWARD =>
      match getStyle tone with
      | GRADING_LIN => Ok (GradingToneLinearFwdOpCPU m_gt m_style)
      | _ => Ok (GradingToneFwdOpCPU m_gt m_style)
      end
  | TRANSFORM_DIR_INVERSE =>
      match getStyle tone with
      | GRADING_LIN => Ok (GradingToneLinearRevOpCPU m_gt m_style)
      | _ => Ok (GradingToneRevOpCPU m_gt m_style)
      end
  | TRANSFORM_DIR_OTHER => Exception "Unsupported GradingTone direction."
  end.

(* ================================================================== *)
(** * The specification's vocabulary *)

(** The bands with a curve per channel, and the stages of the pipeline. *)
Inductive Band : Type := Midtone | Highlight | White | Shadow | Black.

Inductive Stage : Type :=
| CurveStage (b : Band) (c : RGBMChannel)
| SymmetricContrast.

(** The evaluator that a stage names. *)
Definition run_stage (v : GradingTone) (vpr : GradingTonePreRender)
    (s : Stage) : Pixel -> Pixel :=
  match s with
  | CurveStage Midtone c => mids v vpr c
  | CurveStage Highlight c => highlightShadow v vpr c false
  | CurveStage White c => whiteBlack v vpr c false
  | CurveStage Shadow c => highlightShadow v vpr c true
  | CurveStage Black c => whiteBlack v vpr c true
  | SymmetricContrast => scontrast v vpr
  end.

(** A list of stages, run from its head. *)
Definition run_stages (v : GradingTone) (vpr : GradingTonePreRender)
    (l : list Stage) (px : Pixel) : Pixel :=
  fold_left (fun p s => run_stage v vpr s p) l px.

(** "Midtone (R,G,B,Master) -> Highlight (R,G,B,Master) -> White
    (R,G,B,Master) -> Shadow (R,G,B,Master) -> Black (R,G,B,Master) ->
    Symmetric Contrast". *)
Definition band_group (b : Band) : list Stage :=
  [CurveStage b R; CurveStage b G; CurveStage b B; CurveStage b M].

Definition stage_order : list Stage :=
  band_group Midtone ++ band_group Highlight ++ band_group White
  ++ band_group Shadow ++ band_group Black ++ [SymmetricContrast].

Definition channel_eqb (a b : RGBMChannel) : bool :=
  Nat.eqb (channel_index a) (channel_index b).

Definition band_eqb (a b : Band) : bool :=
  match a, b with
  | Midtone, Midtone | Highlight, Highlight | White, White
  | Shadow, Shadow | Black, Black => true
  | _, _ => false
  end.

Definition stage_eqb (a b : Stage) : bool :=
  match a, b with
  | CurveStage b1 c1, CurveStage b2 c2 => band_eqb b1 b2 && channel_eqb c1 c2
  | SymmetricContrast, SymmetricContrast => true
  | _, _ => false
  end.

(** The pipeline without the stage [s]. *)
Definition without_stage (s : Stage) (l : list Stage) : list Stage :=
  filter (fun s' => negb (stage_eqb s' s)) l.

(** The control that a band reads for a channel, and the neutral test of
    each stage: "1.0 for mid/highlight/shadow/white/black/contrast". *)
Definition band_control (v : GradingTone) (b : Band) : GradingRGBMSW :=
  match b with
  | Midtone => m_midtones v
  | Highlight => m_highlights v
  | White => m_whites v
  | Shadow => m_shadows v
  | Black => m_blacks v
  end.

Definition stage_control (v : GradingTone) (s : Stage) : float :=
  match s with
  | CurveStage b c => GetChannelValue (band_control v b) c
  | SymmetricContrast => float_of_double (m_scontrast v)
  end.

(** "Lin to log" and "Log to lin" as maps of one pixel, for either build. *)
Definition encode_pixel (pf : Platform) (px : Pixel) : Pixel :=
  if USE_SSE pf then
    let r := sse_lin_to_log pf (mk128 (px0 px) (px1 px) (px2 px) (px3 px)) in
    mkPixel (l0 r) (l1 r) (l2 r) (l3 r)
  else
    mkPixel (lin_to_log pf (px0 px)) (lin_to_log pf (px1 px))
            (lin_to_log pf (px2 px)) (px3 px).

Definition decode_pixel (pf : Platform) (px : Pixel) : Pixel :=
  if USE_SSE pf then
    let r := sse_log_to_lin pf (mk128 (px0 px) (px1 px) (px2 px) (px3 px)) in
    mkPixel (l0 r) (l1 r) (l2 r) (l3 r)
  else
    mkPixel (log_to_lin pf (px0 px)) (log_to_lin pf (px1 px))
            (log_to_lin pf (px2 px)) (px3 px).

(** What one turn of each pixel loop makes of a pixel. *)
Definition Fwd_pixel (v : GradingTone) (vpr : GradingTonePreRender)
    (px : Pixel) : Pixel :=
  ClampMaxRGB (run_stages v vpr stage_order px).

Definition LinearFwd_pixel (pf : Platform) (v : GradingTone)
    (vpr : GradingTonePreRender) (px : Pixel) : Pixel :=
  ClampMaxRGB (decode_pixel pf (run_stages v vpr stage_order (encode_pixel pf px))).

(** The two buffers of a call are one buffer, or they do not overlap. *)
Definition buffers_ok (inImg outImg n : nat) : Prop :=
  inImg = outImg \/ (inImg + 4 * n <= outImg)%nat \/ (outImg + 4 * n <= inImg)%nat.

(** ** The output clamp *)

(** What the clamp makes ([o]) of a computed colour component ([c]): 65504
    when [c] exceeds 65504, [c] itself when [c] is at most 65504, and a NaN
    when [c] is a NaN; so [o] is at most 65504 unless it is a NaN. *)
Definition clamped_component (c o : float) : Prop :=
  ((c > f65504) = true -> o = f65504)
  /\ ((c <= f65504) = true -> o = c)
  /\ (is_nan c = true -> is_nan o = true)
  /\ (is_nan o = true \/ (o <= f65504) = true).

(** The clamp on a pixel: the three colour components are clamped and the
    fourth float is kept. *)
Definition clamped_pixel (c o : Pixel) : Prop :=
  clamped_component (px0 c) (px0 o)
  /\ clamped_component (px1 c) (px1 o)
  /\ clamped_component (px2 c) (px2 o)
  /\ px3 o = px3 c.

(** ** The Midtone Curve in the specification's words *)

(** "f = u (x_right - x_left) (u 0.5 (m_right - m_left) + m_left) + y_left
    with u = (t - x_left) / (x_right - x_left)". *)
Definition blend (x_left x_right y_left m_left m_right t : float) : float :=
  let u := (t - x_left) / (x_right - x_left) in
  u * (x_right - x_left) * (u * f0_5 * (m_right - m_left) + m_left) + y_left.

(** The coefficients of one channel: breakpoints, ordinates and slopes. *)
Record MidCoeffs : Type := mkMidCoeffs {
  mx : nat -> float; my : nat -> float; mm : nat -> float
}.

Definition mid_coeffs (vpr : GradingTonePreRender) (channel : RGBMChannel) : MidCoeffs :=
  mkMidCoeffs (m_midX vpr channel) (m_midY vpr channel) (m_midM vpr channel).

(** Interior segment [i], between breakpoints [i] and [i + 1]. *)
Definition segment (k : MidCoeffs) (i : nat) (t : float) : float :=
  blend (mx k i) (mx k (S i)) (my k i) (mm k i) (mm k (S i)) t.

(** "Segment selection is by strict threshold comparisons against x1..x4,
    defaulting to the leftmost or rightmost segment". *)
Definition select_segment (k : MidCoeffs) (t : float) : nat :=
  if t > mx k 4 then 4%nat
  else if t > mx k 3 then 3%nat
  else if t > mx k 2 then 2%nat
  else if t < mx k 1 then 0%nat
  else 1%nat.

(** "values below x0 or above x5 extrapolate linearly using the boundary
    slope from the boundary ordinate". *)
Definition midtone_curve (k : MidCoeffs) (t : float) : float :=
  if t > mx k 5 then my k 5 + (t - mx k 5) * mm k 5
  else if t < mx k 0 then my k 0 + (t - mx k 0) * mm k 0
  else segment k (select_segment k t) t.

(** The same curve read as a partition of the line by increasing
    breakpoints: below [x0], the five segments from left to right, above
    [x5]. *)
Definition midtone_partition (k : MidCoeffs) (t : float) : float :=
  if t < mx k 0 then my k 0 + (t - mx k 0) * mm k 0
  else if t < mx k 1 then segment k 0 t
  else if negb (t > mx k 2) then segment k 1 t
  else if negb (t > mx k 3) then segment k 2 t
  else if negb (t > mx k 4) then segment k 3 t
  else if negb (t > mx k 5) then segment k 4 t
  else my k 5 + (t - mx k 5) * mm k 5.

(** "x-breakpoints within a band are strictly increasing". *)
Definition increasing_breakpoints (k : MidCoeffs) : Prop :=
  (mx k 0 < mx k 1) = true /\ (mx k 1 < mx k 2) = true /\ (mx k 2 < mx k 3) = true
  /\ (mx k 3 < mx k 4) = true /\ (mx k 4 < mx k 5) = true.

(** ** Symmetric contrast: the corrected regions *)

(** The value of a component in a corrected region, from the component [t]
    before the contrast and the tables [m_scX], [m_scY] and [m_scM] alone;
    [None] between the bottom and the top region. *)
Definition contrast_correction (scX scY scM : nat -> nat -> float) (t : float)
    : option float :=
  let top := let x1 := scX 0%nat 1%nat in let x2 := scX 0%nat 2%nat in
             blend x1 x2 (scY 0%nat 1%nat) (scM 0%nat 0%nat) (scM 0%nat 1%nat) t in
  let bottom := let x1 := scX 1%nat 1%nat in let x2 := scX 1%nat 2%nat in
             blend x1 x2 (scY 1%nat 1%nat) (scM 1%nat 0%nat) (scM 1%nat 1%nat) t in
  if t < scX 1%nat 1%nat then
    Some (scY 1%nat 1%nat + (t - scX 1%nat 1%nat) * scM 1%nat 0%nat)
  else if t < scX 1%nat 2%nat then Some bottom
  else if t < scX 0%nat 2%nat then
    (if t < scX 0%nat 1%nat then None else Some top)
  else Some (scY 0%nat 2%nat + (t - scX 0%nat 2%nat) * scM 0%nat 1%nat).

(* ================================================================== *)
(** * Sample data *)

Definition fzero : float := S754_zero false.

(** [0.5] as a [double]. *)
Definition d0_5 : double := S754_finite false 4503599627370496 (-53).

Definition neutral_controls : GradingRGBMSW := mkRGBMSW d1 d1 d1 d1 d1 d1.

Definition neutral_tone : GradingTone :=
  mkGradingTone neutral_controls neutral_controls neutral_controls
                neutral_controls neutral_controls d1.

(** Midtones at 0.5 on every channel, everything else neutral. *)
Definition midtone_tone : GradingTone :=
  mkGradingTone neutral_controls neutral_controls
                (mkRGBMSW d0_5 d0_5 d0_5 d0_5 d1 d1)
                neutral_controls neutral_controls d1.

(** Contrast at 0.5, everything else neutral. *)
Definition contrast_tone : GradingTone :=
  mkGradingTone neutral_controls neutral_controls neutral_controls
                neutral_controls neutral_controls d0_5.

(** A midtone table, the same for every channel, with breakpoints
    0, 1, 3, 4, 6, 10 and slopes 1, 1, s, s, s, s where [s = 1 + 2^-23].  Its
    ordinates -2.5, -1.5, 0.5 + 2^-23, 1.5 + 2^-22, 3.5 + 2^-21, 7.5 + 2^-20
    make the curve continuous in exact arithmetic: each is the previous one
    plus the width of the segment times the mean of its two slopes. *)
Definition sample_midX : list float :=
  [fzero; f1; lit 12582912 (-22); f4; lit 12582912 (-21); lit 10485760 (-20)].
Definition sample_midM : list float :=
  [f1; f1; lit 8388609 (-23); lit 8388609 (-23); lit 8388609 (-23); lit 8388609 (-23)].
Definition sample_midY : list float :=
  [nlit 10485760 (-22); nlit 12582912 (-23); lit 8388610 (-24);
   lit 12582914 (-23); lit 14680066 (-22); lit 15728642 (-21)].

Definition table_of (l : list float) : nat -> float := fun i => nth i l fzero.

Definition sample_table : GradingTonePreRender :=
  mkPreRender (fun _ => table_of sample_midX) (fun _ => table_of sample_midY)
              (fun _ => table_of sample_midM)
              (fun _ _ _ => fzero) (fun _ _ _ => fzero) (fun _ _ _ => fzero)
              (fun _ _ _ => fzero) (fun _ _ _ => fzero) (fun _ _ _ => fzero)
              (fun _ _ => f1)
              (fun j => match j with
                        | O => table_of [fzero; f2; f4]
                        | _ => table_of [fzero; fzero; f0_5]
                        end)
              (fun j => match j with
                        | O => table_of [fzero; f2; f4]
                        | _ => table_of [fzero; fzero; f0_5]
                        end)
              (fun _ _ => f1) f1.

(** The exact value [n / 2^k] of a finite binary32 number, as the pair
    [(n, k)] over the common denominator [2^24]. *)
Definition exact24 (x : float) : option Z :=
  match x with
  | S754_zero _ => Some 0%Z
  | S754_finite s m e =>
      if (-24 <=? e)%Z then
        Some ((if s then - Z.pos m else Z.pos m) * 2 ^ (e + 24))%Z
      else None
  | _ => None
  end.

(** Segment [i] of a table is continuous at its right end in exact
    arithmetic: [2 (y' - y) = (x' - x) (m + m')], all in units of [2^-24]. *)
Definition exactly_continuous (X Y Ms : list float) (i : nat) : bool :=
  match exact24 (table_of X i), exact24 (table_of X (S i)),
        exact24 (table_of Y i), exact24 (table_of Y (S i)),
        exact24 (table_of Ms i), exact24 (table_of Ms (S i)) with
  | Some x, Some x', Some y, Some y', Some s, Some s' =>
      (2 * (y' - y) * 2 ^ 24 =? (x' - x) * (s + s'))%Z
  | _, _, _, _, _, _ => false
  end.

Definition pixel_of (r g b a : float) : Pixel := mkPixel r g b a.

(** The value 3.0, which is breakpoint [x2] of the sample table. *)
Definition f3 : float := lit 12582912 (-22).

(** An 8-bit alpha of 1, that is 1/255, as a [float]. *)
Definition alpha_1_255 : float := lit 8421505 (-31).

(** A memory that holds the pixel [px] at address 0 and zeros elsewhere. *)
Definition mem_of_pixel (px : Pixel) : Mem :=
  fun a => match a with
           | 0 => px0 px | 1 => px1 px | 2 => px2 px | 3 => px3 px
           | _ => fzero
           end%nat.

(** A memory whose float at address [a] is the integer [a]. *)
Definition ramp_mem : Mem :=
  fun a => binary_normalize prec emax (Z.of_nat a) 0 false.

Definition plain_platform : Platform :=
  mkPlatform false (fun x => x) (fun x => x) (fun x => x) (fun _ x => x).

(** A property object with neutral controls, and one with the midtones
    away from neutral. *)
Definition neutral_prop (bypass : bool) : DynamicPropertyGradingToneImpl :=
  mkDynProp neutral_tone sample_table bypass false.

Definition midtone_prop (bypass : bool) : DynamicPropertyGradingToneImpl :=
  mkDynProp midtone_tone sample_table bypass false.

Definition inverse_lin_data : GradingToneOpData :=
  mkOpData TRANSFORM_DIR_INVERSE GRADING_LIN (midtone_prop false).

(** A pixel whose red component is a NaN. *)
Definition nan_pixel : Pixel := pixel_of S754_nan f1 f1 f1.

(* ================================================================== *)
(** * Dynamic properties *)

(** [DynamicPropertyType], declared outside this file. *)
Inductive DynamicPropertyType : Type :=
| DYNAMIC_PROPERTY_EXPOSURE
| DYNAMIC_PROPERTY_CONTRAST
| DYNAMIC_PROPERTY_GAMMA
| DYNAMIC_PROPERTY_GRADING_PRIMARY
| DYNAMIC_PROPERTY_GRADING_RGBCURVE
| DYNAMIC_PROPERTY_GRADING_TONE.

(** [type == DYNAMIC_PROPERTY_GRADING_TONE]. *)
Definition is_grading_tone (type : DynamicPropertyType) : bool :=
  match type with DYNAMIC_PROPERTY_GRADING_TONE => true | _ => false end.

(** The property objects that the shared pointers
    [DynamicPropertyGradingToneImplRcPtr] point to: the object at every
    address, and the first address not yet handed out.  A pointer is an
    address; the null pointer is [None]. *)
Record PropHeap : Type := mkPropHeap {
  objs : nat -> DynamicPropertyGradingToneImpl;
  next_free : nat
}.

(** A new object, at a fresh address. *)
Definition heap_alloc (h : PropHeap) (o : DynamicPropertyGradingToneImpl)
    : PropHeap * nat :=
  (mkPropHeap (fun p => if Nat.eqb p (next_free h) then o else objs h p)
              (S (next_free h)),
   next_free h).


(** The members of [class GradingToneOpCPU]; [m_gt] is a shared pointer. *)
Record GradingToneOpCPU : Type := mkGradingToneOpCPU {
  m_gt : nat;
  m_style : GradingStyle
}.

(** [GradingToneOpCPU::hasDynamicProperty]. *)
Definition hasDynamicProperty (h : PropHeap) (this : GradingToneOpCPU)
    (type : DynamicPropertyType) : bool :=
  let res := false in
  if is_grading_tone type then isDynamic (objs h (m_gt this)) else res.

(** [GradingToneOpCPU::getDynamicProperty]: the pointer returned, or the
    exception thrown. *)
Definition getDynamicProperty (h : PropHeap) (this : GradingToneOpCPU)
    (type : DynamicPropertyType) : Result nat :=
  if is_grading_tone type then
    if isDynamic (objs h (m_gt this)) then Ok (m_gt this)
    else Exception "GradingTone property is not dynamic."
  else Exception "Dynamic property type not supported by GradingTone.".

(** How [unifyDynamicProperty] ends: with the heap, the caller's pointer
    [prop] and the (mutable) member [m_gt] as it leaves them, or in the
    call of [OpCPU::unifyDynamicProperty], which is outside this file. *)
Inductive UnifyOutcome : Type :=
| Unified (h : PropHeap) (prop : option nat) (this : GradingToneOpCPU)
| ToOpCPU (h : PropHeap) (prop : option nat) (this : GradingToneOpCPU).

(** [GradingToneOpCPU::unifyDynamicProperty].  [createEditableCopy] is a
    member of the property class, outside this file: it is taken as the
    function from an object to the contents of the new object. *)
Definition unifyDynamicProperty
    (createEditableCopy : DynamicPropertyGradingToneImpl -> DynamicPropertyGradingToneImpl)
    (h : PropHeap) (this : GradingToneOpCPU) (type : DynamicPropertyType)
    (prop : option nat) : UnifyOutcome :=
  if is_grading_tone type then
    match prop with
    | None =>
        (* First occurence, decouple. *)
        let (h, p) := heap_alloc h (createEditableCopy (objs h (m_gt this))) in
        Unified h (Some p) (mkGradingToneOpCPU p (m_style this))
    | Some p => Unified h (Some p) (mkGradingToneOpCPU p (m_style this))
    end
  else ToOpCPU h prop this.


(* ================================================================== *)
(** * More vocabulary *)

(** Finite values: the zeros and the normal and subnormal numbers. *)
Definition is_finite (x : float) : bool :=
  match x with S754_zero _ | S754_finite _ _ _ => true | _ => false end.

Definition is_finite_nz (x : float) : bool :=
  match x with S754_finite _ _ _ => true | _ => false end.

Definition is_zero (x : float) : bool :=
  match x with S754_zero _ => true | _ => false end.

(** A midtone table fit for evaluation at its knots: finite breakpoints and
    slopes, finite ordinates other than zero, segment widths that neither
    vanish nor overflow, and slope differences that do not overflow. *)
Definition finite_knots (k : MidCoeffs) : bool :=
  forallb (fun i => is_finite (mx k i) && is_finite (mm k i) && is_finite_nz (my k i))
          [0; 1; 2; 3; 4; 5]%nat
  && forallb (fun i => is_finite_nz (mx k (S i) - mx k i)
                       && is_finite (mm k (S i) - mm k i))
             [0; 1; 2; 3; 4]%nat.

(** One lane of the master path of the Midtone Curve. *)
Definition mids_master_lane (k : MidCoeffs) (t : float) : float :=
  v0 (mids_master (mx k 0) (mx k 1) (mx k 2) (mx k 3) (mx k 4) (mx k 5)
                  (my k 0) (my k 1) (my k 2) (my k 3) (my k 4) (my k 5)
                  (mm k 0) (mm k 1) (mm k 2) (mm k 3) (mm k 4) (mm k 5)
                  (mkFloat3 t t t)).

(** The value that [ComputeWB<float>] leaves in the component of its
    channel when that component was [t]: the value it stores, or [t] when it
    stores nothing. *)
Definition ComputeWB_lane (isBlack : bool) (val x0 x1 y0 y1 m0 m1 gn t : float) : float :=
  px0 (ComputeWB R isBlack (mkPixel t t t t) val x0 x1 y0 y1 m0 m1 gn t).

(** The index [isShadow ? 1 : 0] and [isBlack ? 1 : 0] of a table. *)
Definition side (b : bool) : nat := if b then 1%nat else 0%nat.

(** The highlight/shadow control and coefficients of the channel [c] are
    those of the master channel. *)
Definition hs_like_master (v : GradingTone) (vpr : GradingTonePreRender)
    (isShadow : bool) (c : RGBMChannel) : Prop :=
  GetChannelValue (if isShadow then m_shadows v else m_highlights v) c
  = GetChannelValue (if isShadow then m_shadows v else m_highlights v) M
  /\ (forall j, m_hsX vpr (side isShadow) c j = m_hsX vpr (side isShadow) M j)
  /\ (forall j, m_hsY vpr (side isShadow) c j = m_hsY vpr (side isShadow) M j)
  /\ (forall j, m_hsM vpr (side isShadow) c j = m_hsM vpr (side isShadow) M j).

(** The white/black control and coefficients of the channel [c] are those
    of the master channel. *)
Definition wb_like_master (v : GradingTone) (vpr : GradingTonePreRender)
    (isBlack : bool) (c : RGBMChannel) : Prop :=
  GetChannelValue (if isBlack then m_blacks v else m_whites v) c
  = GetChannelValue (if isBlack then m_blacks v else m_whites v) M
  /\ (forall j, m_wbX vpr (side isBlack) c j = m_wbX vpr (side isBlack) M j)
  /\ (forall j, m_wbY vpr (side isBlack) c j = m_wbY vpr (side isBlack) M j)
  /\ (forall j, m_wbM vpr (side isBlack) c j = m_wbM vpr (side isBlack) M j)
  /\ m_wbGain vpr (side isBlack) c = m_wbGain vpr (side isBlack) M.

(** A map of pixels that keeps the channels apart: each of the four floats
    of the result depends on the float at the same place of the argument
    only. *)
Definition channel_local (F : Pixel -> Pixel) : Prop :=
  forall (px px' : Pixel) (i : nat), rd px i = rd px' i -> rd (F px) i = rd (F px') i.

(** Every control of [v] converts to 1.0f. *)
Definition all_neutral (v : GradingTone) : Prop :=
  forall s : Stage, stage_control v s = f1.

(** ** More sample data *)

(** A [double] NaN, and controls whose highlights are NaN on every channel. *)
Definition nan_controls : GradingRGBMSW :=
  mkRGBMSW S754_nan S754_nan S754_nan S754_nan d1 d1.

Definition nan_highlights_tone : GradingTone :=
  mkGradingTone neutral_controls neutral_controls neutral_controls
                nan_controls neutral_controls d1.

(** Shadows and whites at 0.5 on every channel (the compress regime of the
    shadows, the decreasing-slope regime of the whites). *)
Definition shadow_white_tone : GradingTone :=
  mkGradingTone neutral_controls (mkRGBMSW d0_5 d0_5 d0_5 d0_5 d1 d1)
                neutral_controls neutral_controls
                (mkRGBMSW d0_5 d0_5 d0_5 d0_5 d1 d1) d1.

(** A table with the same highlight/shadow and white/black rows on every
    channel: breakpoints 0, 1, 2, ordinates 0, 1, 2, slopes 1, gain 2. *)
Definition uniform_table : GradingTonePreRender :=
  mkPreRender (fun _ => table_of sample_midX) (fun _ => table_of sample_midY)
              (fun _ => table_of sample_midM)
              (fun _ _ => table_of [fzero; f1; f2]) (fun _ _ => table_of [fzero; f1; f2])
              (fun _ _ _ => f1)
              (fun _ _ => table_of [fzero; f1; f2]) (fun _ _ => table_of [fzero; f1; f2])
              (fun _ _ _ => f1)
              (fun _ _ => f2)
              (fun _ => table_of [fzero; f1; f2]) (fun _ => table_of [fzero; f1; f2])
              (fun _ _ => f1) f1.

(** A heap with two property objects, at the addresses 0 and 1. *)
Definition sample_heap : PropHeap :=
  mkPropHeap (fun p => match p with
                       | O => mkDynProp midtone_tone sample_table false true
                       | _ => mkDynProp neutral_tone sample_table false false
                       end) 2.

(** 4.0 * 2^14 = 65536, above the clamp. *)
Definition f65536 : float := lit 8388608 (-7).

(* ================================================================== *)
(** * The literals *)

(** Each literal of the source with a fractional part is the binary32 value
    nearest to its decimal, and [static_cast<float>(1.0)] is [1.f]. *)
Lemma literals_are_nearest :
  nearest_to 1 100 f0_01 = true
  /\ nearest_to 199 100 f1_99 = true
  /\ nearest_to 99 100 f0_99 = true
  /\ nearest_to 18 100 f0_18 = true
  /\ nearest_to 65504 1 f65504 = true
  /\ nearest_to 41318374739483946 (10 ^ 19) xbrk = true
  /\ nearest_to (-157849851665374) (10 ^ 18) shift = true
  /\ nearest_to 363034608563 (10 ^ 9) gain = true
  /\ nearest_to 14426950408889634 (10 ^ 16) base2 = true
  /\ nearest_to (-7) 1 offs = true
  /\ nearest_to (-11) 2 ybrk = true
  /\ float_of_double d1 = f1.
Proof. vm_compute. repeat split. Qed.

(* ================================================================== *)
(** * The order of binary32 values *)

(** The comparison of two finite values of one sign: by exponent, then by
    mantissa. *)
Lemma lex_lt_trans (e1 e2 e3 : Z) (m1 m2 m3 : positive) (c : comparison) :
  c <> Eq ->
  match (e1 ?= e2)%Z with Lt => Lt | Gt => Gt | Eq => Pos.compare_cont Eq m1 m2 end = c ->
  match (e2 ?= e3)%Z with Lt => Lt | Gt => Gt | Eq => Pos.compare_cont Eq m2 m3 end = c ->
  match (e1 ?= e3)%Z with Lt => Lt | Gt => Gt | Eq => Pos.compare_cont Eq m1 m3 end = c.
Proof.
  change (Pos.compare_cont Eq) with Pos.compare.
  intros Hc H12 H23.
  destruct c; [congruence | | ];
    destruct (Z.compare_spec e1 e2) as [E12|L12|G12];
    destruct (Z.compare_spec e2 e3) as [E23|L23|G23];
    destruct (Z.compare_spec e1 e3) as [E13|L13|G13];
    try lia; try congruence.
  - apply Pos.compare_lt_iff in H12. apply Pos.compare_lt_iff in H23.
    apply Pos.compare_lt_iff. exact (Pos.lt_trans _ _ _ H12 H23).
  - apply Pos.compare_gt_iff in H12. apply Pos.compare_gt_iff in H23.
    apply Pos.compare_gt_iff. exact (Pos.lt_trans _ _ _ H23 H12).
Qed.

(** [<] is transitive on all values; a NaN is below and above nothing. *)
Lemma ltb_trans (a b c : float) :
  (a < b) = true -> (b < c) = true -> (a < c) = true.
Proof.
  unfold F32.ltb, SFltb.
  destruct a as [sa|sa| |sa ma ea]; destruct b as [sb|sb| |sb mb eb];
    destruct c as [sc|sc| |sc mc ec]; simpl;
    try discriminate; try reflexivity;
    try (destruct sa; simpl; try discriminate; try reflexivity);
    try (destruct sb; simpl; try discriminate; try reflexivity);
    try (destruct sc; simpl; try discriminate; try reflexivity).
  - (* three negative finite values *)
    intros H12 H23.
    assert (G12 : match (ea ?= eb)%Z with Lt => Lt | Gt => Gt
                  | Eq => Pos.compare_cont Eq ma mb end = Gt).
    { destruct (ea ?= eb)%Z; try discriminate; try reflexivity.
      destruct (Pos.compare_cont Eq ma mb); simpl in H12; try discriminate; reflexivity. }
    assert (G23 : match (eb ?= ec)%Z with Lt => Lt | Gt => Gt
                  | Eq => Pos.compare_cont Eq mb mc end = Gt).
    { destruct (eb ?= ec)%Z; try discriminate; try reflexivity.
      destruct (Pos.compare_cont Eq mb mc); simpl in H23; try discriminate; reflexivity. }
    assert (G13 := @lex_lt_trans ea eb ec ma mb mc Gt ltac:(discriminate) G12 G23).
    destruct (ea ?= ec)%Z; try discriminate; try reflexivity.
    rewrite G13. reflexivity.
  - (* three positive finite values *)
    intros H12 H23.
    assert (L12 : match (ea ?= eb)%Z with Lt => Lt | Gt => Gt
                  | Eq => Pos.compare_cont Eq ma mb end = Lt).
    { destruct (ea ?= eb)%Z; try discriminate; try reflexivity.
      destruct (Pos.compare_cont Eq ma mb); try discriminate; reflexivity. }
    assert (L23 : match (eb ?= ec)%Z with Lt => Lt | Gt => Gt
                  | Eq => Pos.compare_cont Eq mb mc end = Lt).
    { destruct (eb ?= ec)%Z; try discriminate; try reflexivity.
      destruct (Pos.compare_cont Eq mb mc); try discriminate; reflexivity. }
    assert (L13 := @lex_lt_trans ea eb ec ma mb mc Lt ltac:(discriminate) L12 L23).
    destruct (ea ?= ec)%Z; try discriminate; try reflexivity.
    rewrite L13. reflexivity.
Qed.

(** Swapping the operands of a comparison mirrors its result. *)
Lemma SFcompare_swap (a b : float) :
  SFcompare b a = option_map CompOpp (SFcompare a b).
Proof.
  destruct a as [sa|sa| |sa ma ea]; destruct b as [sb|sb| |sb mb eb]; simpl;
    try reflexivity;
    try (destruct sa; reflexivity); try (destruct sb; reflexivity);
    try (destruct sa, sb; reflexivity).
  change (Pos.compare_cont Eq) with Pos.compare.
  rewrite (Z.compare_antisym ea eb), (Pos.compare_antisym ma mb).
  destruct sa, sb; simpl; try reflexivity;
    destruct (ea ?= eb)%Z; simpl; try reflexivity;
    destruct (ma ?= mb)%positive; reflexivity.
Qed.

Lemma ltb_asym (a b : float) : (a < b) = true -> (b < a) = false.
Proof.
  unfold F32.ltb, SFltb. rewrite (SFcompare_swap a b).
  destruct (SFcompare a b) as [[ | | ]|]; simpl; congruence.
Qed.

Lemma ltb_leb (a b : float) : (a < b) = true -> (a <= b) = true.
Proof.
  unfold F32.ltb, F32.leb, SFltb, SFleb.
  destruct (SFcompare a b) as [[ | | ]|]; congruence.
Qed.

(** Among two values that are not NaN, [a <= b] when [b < a] fails. *)
Lemma not_ltb_leb (a b : float) :
  is_nan a = false -> is_nan b = false -> (b < a) = false -> (a <= b) = true.
Proof.
  unfold F32.ltb, F32.leb, SFltb, SFleb. rewrite (SFcompare_swap a b).
  destruct a as [sa|sa| |sa ma ea]; destruct b as [sb|sb| |sb mb eb];
    try discriminate; intros _ _;
    match goal with
    | |- context [SFcompare ?x ?y] => destruct (SFcompare x y) as [[ | | ]|] eqn:E
    end; simpl; try congruence; simpl in E; try discriminate;
    destruct sa; try destruct sb; discriminate.
Qed.

Lemma ltb_not_nan (a b : float) :
  (a < b) = true -> is_nan a = false /\ is_nan b = false.
Proof.
  unfold F32.ltb, SFltb.
  destruct a as [sa|sa| |sa ma ea]; destruct b as [sb|sb| |sb mb eb]; simpl;
    try discriminate; auto.
Qed.

(* ================================================================== *)
(** * The evaluators and the fourth float of a pixel *)

Lemma px3_wr (channel : RGBMChannel) (out : Pixel) (x : float) :
  is_master channel = false -> px3 (wr out (channel_index channel) x) = px3 out.
Proof. destruct channel; simpl; intros H; try discriminate; reflexivity. Qed.

Lemma px3_mids v vpr channel out : px3 (mids v vpr channel out) = px3 out.
Proof.
  unfold mids.
  destruct (Clamp _ _ _ != f1); [ | reflexivity ].
  destruct (is_master channel) eqn:E; simpl negb; cbv iota.
  - reflexivity.
  - apply px3_wr. exact E.
Qed.

Lemma px3_ComputeHS_float channel out val x0 x1 x2 y0 y1 y2 m0 m2 (t : float) :
  is_master channel = false ->
  px3 (ComputeHS channel out val x0 x1 x2 y0 y1 y2 m0 m2 t) = px3 out.
Proof. intros E. unfold ComputeHS. cbn [Set_ ToneType_float]. apply px3_wr. exact E. Qed.

Lemma px3_ComputeHS_float3 channel out val x0 x1 x2 y0 y1 y2 m0 m2 (t : float3) :
  px3 (ComputeHS channel out val x0 x1 x2 y0 y1 y2 m0 m2 t) = px3 out.
Proof. reflexivity. Qed.

Lemma px3_highlightShadow v vpr channel isShadow out :
  px3 (highlightShadow v vpr channel isShadow out) = px3 out.
Proof.
  unfold highlightShadow.
  match goal with |- context [if ?c == f1 then _ else _] => destruct (c == f1) end;
    [ reflexivity | ].
  destruct (is_master channel) eqn:E; simpl negb; cbv iota.
  - apply px3_ComputeHS_float3.
  - apply px3_ComputeHS_float. exact E.
Qed.

Lemma px3_ComputeWB_float channel isBlack out val x0 x1 y0 y1 m0 m1 gn (t : float) :
  is_master channel = false ->
  px3 (ComputeWB channel isBlack out val x0 x1 y0 y1 m0 m1 gn t) = px3 out.
Proof.
  intros E. unfold ComputeWB. cbn [Set_ ToneType_float].
  repeat match goal with
         | |- context [if ?c then _ else _] => destruct c
         end; try reflexivity; apply px3_wr; exact E.
Qed.

Lemma px3_ComputeWB_float3 channel isBlack out val x0 x1 y0 y1 m0 m1 gn (t : float3) :
  px3 (ComputeWB channel isBlack out val x0 x1 y0 y1 m0 m1 gn t) = px3 out.
Proof.
  unfold ComputeWB. cbn [Set_ ToneType_float3].
  repeat match goal with
         | |- context [px3 (if ?c then _ else _)] => destruct c
         end; reflexivity.
Qed.

Lemma px3_whiteBlack v vpr channel isBlack out :
  px3 (whiteBlack v vpr channel isBlack out) = px3 out.
Proof.
  unfold whiteBlack.
  destruct (is_master channel) eqn:E; simpl negb; cbv iota.
  - apply px3_ComputeWB_float3.
  - apply px3_ComputeWB_float. exact E.
Qed.

Lemma px3_scontrast v vpr out : px3 (scontrast v vpr out) = px3 out.
Proof. unfold scontrast. destruct (_ != f1); reflexivity. Qed.

Lemma px3_ClampMaxRGB out : px3 (ClampMaxRGB out) = px3 out.
Proof. reflexivity. Qed.

(** No stage of the pipeline touches the fourth float. *)
Lemma px3_run_stage v vpr s px : px3 (run_stage v vpr s px) = px3 px.
Proof.
  destruct s as [[ | | | | ] c | ]; simpl;
    auto using px3_mids, px3_highlightShadow, px3_whiteBlack, px3_scontrast.
Qed.

Lemma px3_run_stages v vpr l px : px3 (run_stages v vpr l px) = px3 px.
Proof.
  unfold run_stages. revert px.
  induction l as [ | s l IH]; intros px; simpl; [ reflexivity | ].
  rewrite IH. apply px3_run_stage.
Qed.

(* ================================================================== *)
(** * Neutral controls *)

Lemma mids_neutral v vpr channel out :
  GetChannelValue (m_midtones v) channel = f1 -> mids v vpr channel out = out.
Proof. intros H. unfold mids. rewrite H. reflexivity. Qed.

Lemma highlightShadow_neutral (v : GradingTone) vpr channel (isShadow : bool) out :
  GetChannelValue (if isShadow then m_shadows v else m_highlights v) channel = f1 ->
  highlightShadow v vpr channel isShadow out = out.
Proof.
  intros H. unfold highlightShadow.
  destruct isShadow; simpl in H; rewrite H; reflexivity.
Qed.

Lemma whiteBlack_neutral (v : GradingTone) vpr channel (isBlack : bool) out :
  GetChannelValue (if isBlack then m_blacks v else m_whites v) channel = f1 ->
  whiteBlack v vpr channel isBlack out = out.
Proof.
  intros H. unfold whiteBlack.
  destruct isBlack; simpl in H; rewrite H; destruct (is_master channel); reflexivity.
Qed.

Lemma scontrast_neutral v vpr out :
  float_of_double (m_scontrast v) = f1 -> scontrast v vpr out = out.
Proof. intros H. unfold scontrast. rewrite H. reflexivity. Qed.

(** A stage whose control is 1.0 is the identity. *)
Lemma run_stage_neutral v vpr s px :
  stage_control v s = f1 -> run_stage v vpr s px = px.
Proof.
  destruct s as [[ | | | | ] c | ]; simpl; intros H.
  - apply mids_neutral; exact H.
  - apply (highlightShadow_neutral v vpr c false); exact H.
  - apply (whiteBlack_neutral v vpr c false); exact H.
  - apply (highlightShadow_neutral v vpr c true); exact H.
  - apply (whiteBlack_neutral v vpr c true); exact H.
  - apply scontrast_neutral; exact H.
Qed.

(** A stage reads the controls through its own control only. *)
Lemma run_stage_control v v' vpr s px :
  stage_control v s = stage_control v' s ->
  run_stage v vpr s px = run_stage v' vpr s px.
Proof.
  destruct s as [[ | | | | ] c | ]; simpl; intros H.
  - unfold mids. rewrite H. reflexivity.
  - unfold highlightShadow. simpl. rewrite H. reflexivity.
  - unfold whiteBlack. simpl. rewrite H. reflexivity.
  - unfold highlightShadow. simpl. rewrite H. reflexivity.
  - unfold whiteBlack. simpl. rewrite H. reflexivity.
  - unfold scontrast. rewrite H. reflexivity.
Qed.

(* ================================================================== *)
(** * Reading and writing the image memory *)

Ltac eqb_cases :=
  repeat match goal with
         | |- context [Nat.eqb ?a ?b] => destruct (Nat.eqb_spec a b); try lia
         end.

Lemma store_same m a x : store m a x a = x.
Proof. unfold store. rewrite Nat.eqb_refl. reflexivity. Qed.

Lemma store_other m a x b : b <> a -> store m a x b = m b.
Proof. intros H. unfold store. eqb_cases. reflexivity. Qed.

Lemma load_store_pixel m p px : load_pixel (store_pixel m p px) p = px.
Proof.
  destruct px as [a b c d]. unfold load_pixel, store_pixel, store.
  cbn [px0 px1 px2 px3]. f_equal; eqb_cases; reflexivity.
Qed.

Lemma store_pixel_other m p px a :
  (a < p \/ p + 4 <= a)%nat -> store_pixel m p px a = m a.
Proof. intros H. unfold store_pixel, store. eqb_cases. reflexivity. Qed.

Lemma load_pixel_ext m m' p :
  (forall a, (p <= a < p + 4)%nat -> m' a = m a) -> load_pixel m' p = load_pixel m p.
Proof.
  intros H. unfold load_pixel. f_equal; apply H; lia.
Qed.

Lemma on_out_load f out m : load_pixel (on_out f out m) out = f (load_pixel m out).
Proof. unfold on_out. apply load_store_pixel. Qed.

Lemma on_out_other f out m a :
  (a < out \/ out + 4 <= a)%nat -> on_out f out m a = m a.
Proof. intros H. unfold on_out. apply store_pixel_other. exact H. Qed.

(** The calls of one turn of the loop run the stages in [stage_order] on
    the pixel at [out], and write nothing else. *)
Lemma curve_calls_load v vpr out m :
  load_pixel (curve_calls v vpr out m) out
  = run_stages v vpr stage_order (load_pixel m out).
Proof.
  unfold curve_calls. rewrite !on_out_load.
  unfold run_stages, stage_order, band_group.
  cbn [app fold_left run_stage]. reflexivity.
Qed.

Lemma curve_calls_other v vpr out m a :
  (a < out \/ out + 4 <= a)%nat -> curve_calls v vpr out m a = m a.
Proof.
  intros H. unfold curve_calls. rewrite !on_out_other by exact H. reflexivity.
Qed.

Lemma memcpy_pixel_load m out in_ :
  load_pixel (memcpy m out in_ PixelFloats) out = load_pixel m in_.
Proof.
  unfold load_pixel, memcpy, PixelFloats.
  f_equal;
    match goal with
    | |- (if ?c then _ else _) = _ =>
        replace c with true by (symmetry; apply andb_true_intro; split;
                                [ apply Nat.leb_le | apply Nat.ltb_lt ]; lia)
    end; f_equal; lia.
Qed.

Lemma memcpy_other m dst src n a :
  (a < dst \/ dst + n <= a)%nat -> memcpy m dst src n a = m a.
Proof.
  intros H. unfold memcpy.
  destruct (Nat.leb_spec dst a); destruct (Nat.ltb_spec a (dst + n)); simpl;
    try reflexivity; lia.
Qed.

Lemma memcpy_inside m dst src n i :
  (i < n)%nat -> memcpy m dst src n (dst + i)%nat = m (src + i)%nat.
Proof.
  intros H. unfold memcpy.
  destruct (Nat.leb_spec dst (dst + i)); destruct (Nat.ltb_spec (dst + i) (dst + n));
    simpl; try lia. f_equal. lia.
Qed.

(** One turn of the plain forward loop. *)
Lemma Fwd_body_load v vpr in_ out m :
  load_pixel (Fwd_body v vpr in_ out m) out = Fwd_pixel v vpr (load_pixel m in_).
Proof.
  unfold Fwd_body, Fwd_pixel.
  rewrite on_out_load, curve_calls_load, memcpy_pixel_load. reflexivity.
Qed.

Lemma Fwd_body_other v vpr in_ out m a :
  (a < out \/ out + 4 <= a)%nat -> Fwd_body v vpr in_ out m a = m a.
Proof.
  intros H. unfold Fwd_body.
  rewrite on_out_other, curve_calls_other, memcpy_other by (unfold PixelFloats; exact H).
  reflexivity.
Qed.

(** The two blocks of the linear-style loop body as maps of the pixel. *)
Lemma lin_to_log_block_load pf in_ out m :
  (in_ = out \/ in_ + 4 <= out \/ out + 4 <= in_)%nat ->
  load_pixel (lin_to_log_block pf in_ out m) out = encode_pixel pf (load_pixel m in_).
Proof.
  intros Hb. unfold lin_to_log_block, encode_pixel.
  destruct (USE_SSE pf).
  - unfold load_pixel at 1. unfold mm_storeu_ps, store. eqb_cases. reflexivity.
  - unfold load_pixel, store. cbn [px0 px1 px2 px3].
    f_equal; eqb_cases; reflexivity.
Qed.

Lemma lin_to_log_block_other pf in_ out m a :
  (a < out \/ out + 4 <= a)%nat -> lin_to_log_block pf in_ out m a = m a.
Proof.
  intros H. unfold lin_to_log_block.
  destruct (USE_SSE pf); unfold mm_storeu_ps, store; eqb_cases; reflexivity.
Qed.

Lemma log_to_lin_block_load pf out m :
  load_pixel (log_to_lin_block pf out m) out = decode_pixel pf (load_pixel m out).
Proof.
  unfold log_to_lin_block, decode_pixel.
  destruct (USE_SSE pf).
  - unfold load_pixel at 1. unfold mm_storeu_ps, store. eqb_cases. reflexivity.
  - unfold load_pixel, store. cbn [px0 px1 px2 px3].
    f_equal; eqb_cases; reflexivity.
Qed.

Lemma log_to_lin_block_other pf out m a :
  (a < out \/ out + 4 <= a)%nat -> log_to_lin_block pf out m a = m a.
Proof.
  intros H. unfold log_to_lin_block.
  destruct (USE_SSE pf); unfold mm_storeu_ps, store; eqb_cases; reflexivity.
Qed.

(** One turn of the linear-style forward loop, on buffers that are one
    buffer or do not overlap in this pixel. *)
Lemma LinearFwd_body_load pf v vpr in_ out m :
  (in_ = out \/ in_ + 4 <= out \/ out + 4 <= in_)%nat ->
  load_pixel (LinearFwd_body pf v vpr in_ out m) out
  = LinearFwd_pixel pf v vpr (load_pixel m in_).
Proof.
  intros Hb. unfold LinearFwd_body, LinearFwd_pixel.
  rewrite on_out_load, log_to_lin_block_load, curve_calls_load.
  rewrite lin_to_log_block_load by exact Hb. reflexivity.
Qed.

Lemma LinearFwd_body_other pf v vpr in_ out m a :
  (a < out \/ out + 4 <= a)%nat -> LinearFwd_body pf v vpr in_ out m a = m a.
Proof.
  intros H. unfold LinearFwd_body.
  rewrite on_out_other, log_to_lin_block_other, curve_calls_other,
    lin_to_log_block_other by exact H.
  reflexivity.
Qed.

(** The pixel loop, for a body that turns the pixel at [in] into the pixel
    [F] of it at [out] and writes nothing else. *)
Section PixelLoop.

Variable body : nat -> nat -> Mem -> Mem.
Variable F : Pixel -> Pixel.

Hypothesis body_load : forall in_ out m,
  (in_ = out \/ in_ + 4 <= out \/ out + 4 <= in_)%nat ->
  load_pixel (body in_ out m) out = F (load_pixel m in_).

Hypothesis body_other : forall in_ out m a,
  (a < out \/ out + 4 <= a)%nat -> body in_ out m a = m a.

Lemma pixel_loop_other n : forall in_ out m a,
  (a < out \/ out + 4 * n <= a)%nat -> pixel_loop body n in_ out m a = m a.
Proof.
  induction n as [ | n IH]; intros in_ out m a H; simpl; [ reflexivity | ].
  rewrite IH by lia. apply body_other. lia.
Qed.

Lemma pixel_loop_load n : forall in_ out m i,
  buffers_ok in_ out n -> (i < n)%nat ->
  load_pixel (pixel_loop body n in_ out m) (out + 4 * i)
  = F (load_pixel m (in_ + 4 * i)).
Proof.
  unfold buffers_ok.
  induction n as [ | n IH]; intros in_ out m i Hb Hi; [ lia | ].
  simpl pixel_loop. destruct i as [ | i].
  - rewrite !Nat.mul_0_r, !Nat.add_0_r.
    rewrite (@load_pixel_ext (body in_ out m)).
    + apply body_load. lia.
    + intros a Ha. apply pixel_loop_other. lia.
  - replace (out + 4 * S i)%nat with (out + 4 + 4 * i)%nat by lia.
    replace (in_ + 4 * S i)%nat with (in_ + 4 + 4 * i)%nat by lia.
    rewrite IH by lia. f_equal.
    apply load_pixel_ext. intros a Ha. apply body_other. lia.
Qed.

End PixelLoop.

(* ================================================================== *)
(** * The inverse renderers *)

(** C1.  Calling [apply] on either reverse-direction renderer (the plain
    one or the linear-style one) throws the exception "GradingTone inverse
    CPU not implemented." for every input buffer, output buffer and pixel
    count, and computes nothing: the image memory after the call is the
    memory before it.  The renderer that [GetGradingToneCPURenderer] builds
    for the inverse direction is one of these two, whatever the style. *)
Theorem inverse_apply_throws :
  forall (pf : Platform) (inImg outImg : nat) (numPixels : Z) (m : Mem),
    (forall m_gt m_style,
        apply pf (GradingToneRevOpCPU m_gt m_style) inImg outImg numPixels m
        = Thrown "GradingTone inverse CPU not implemented." m
        /\ apply pf (GradingToneLinearRevOpCPU m_gt m_style) inImg outImg numPixels m
           = Thrown "GradingTone inverse CPU not implemented." m)
    /\ (forall tone,
           getDirection tone = TRANSFORM_DIR_INVERSE ->
           exists op,
             GetGradingToneCPURenderer tone = Ok op
             /\ apply pf op inImg outImg numPixels m
                = Thrown "GradingTone inverse CPU not implemented." m).
Proof.
  intros pf inImg outImg numPixels m. split.
  - intros m_gt m_style. split; reflexivity.
  - intros tone Hdir. unfold GetGradingToneCPURenderer. rewrite Hdir.
    destruct (getStyle tone); eexists; split; reflexivity.
Qed.

Lemma inverse_apply_throws_witness :
  exists op,
    GetGradingToneCPURenderer inverse_lin_data = Ok op
    /\ apply plain_platform op 0 8 2 ramp_mem
       = Thrown "GradingTone inverse CPU not implemented." ramp_mem.
Proof.
  exact (proj2 (inverse_apply_throws plain_platform 0 8 2 ramp_mem)
               inverse_lin_data eq_refl).
Defined.

(* ================================================================== *)
(** * Neutral controls and the pipeline *)

Lemma run_stages_app v vpr l1 l2 px :
  run_stages v vpr (l1 ++ l2) px = run_stages v vpr l2 (run_stages v vpr l1 px).
Proof. unfold run_stages. apply fold_left_app. Qed.

Lemma stage_eqb_eq (a b : Stage) : stage_eqb a b = true -> a = b.
Proof.
  destruct a as [b1 c1 | ]; destruct b as [b2 c2 | ]; simpl; try discriminate;
    [ | reflexivity ].
  destruct b1, b2; simpl; try discriminate;
    destruct c1, c2; simpl; try discriminate; reflexivity.
Qed.

(** A stage whose control is 1.0 drops out of any list of stages. *)
Lemma run_stages_without v vpr s l :
  stage_control v s = f1 ->
  forall px, run_stages v vpr l px = run_stages v vpr (without_stage s l) px.
Proof.
  intros Hs. unfold run_stages, without_stage.
  induction l as [ | s' l IH]; intros px; simpl; [ reflexivity | ].
  destruct (stage_eqb s' s) eqn:E; simpl.
  - apply stage_eqb_eq in E. subst s'.
    rewrite (run_stage_neutral v vpr s px Hs). apply IH.
  - apply IH.
Qed.

(** C2.  Neutral-control identity.  For every stage of the pipeline (each
    of the bands midtones, highlights, shadows, whites and blacks on each
    channel, and the symmetric contrast) whose control is exactly 1.0, the
    stage's evaluator returns every pixel exactly as it received it, so the
    stage drops out of the pipeline; and every other stage computes the
    same as under any controls [v'] that give that other stage the same
    control, whatever [v'] gives to the neutral stage. *)
Theorem neutral_control_identity :
  forall (v : GradingTone) (vpr : GradingTonePreRender) (s : Stage),
    stage_control v s = f1 ->
    (forall px, run_stage v vpr s px = px)
    /\ (forall px,
           run_stages v vpr stage_order px
           = run_stages v vpr (without_stage s stage_order) px)
    /\ (forall v' s' px,
           stage_control v' s' = stage_control v s' ->
           run_stage v vpr s' px = run_stage v' vpr s' px).
Proof.
  intros v vpr s Hs. split; [ | split ].
  - intros px. apply run_stage_neutral. exact Hs.
  - apply run_stages_without. exact Hs.
  - intros v' s' px H. apply run_stage_control. symmetry. exact H.
Qed.

Lemma neutral_control_identity_witness :
  (forall px, run_stage neutral_tone sample_table (CurveStage Highlight G) px = px)
  /\ (forall px,
         run_stages neutral_tone sample_table stage_order px
         = run_stages neutral_tone sample_table
             (without_stage (CurveStage Highlight G) stage_order) px)
  /\ (forall v' s' px,
         stage_control v' s' = stage_control neutral_tone s' ->
         run_stage neutral_tone sample_table s' px = run_stage v' sample_table s' px).
Proof.
  apply (@neutral_control_identity neutral_tone sample_table (CurveStage Highlight G)).
  reflexivity.
Defined.

(* ================================================================== *)
(** * The forward renderers, pixel by pixel *)

(** A forward [apply] that is not bypassed returns, having written to each
    output pixel what one turn of its loop makes of the input pixel at the
    same index, and having written nothing outside the output buffer. *)
Lemma Fwd_apply_pixels pf m_gt m_style inImg outImg numPixels m :
  getLocalBypass m_gt = false ->
  buffers_ok inImg outImg (Z.to_nat numPixels) ->
  exists m',
    apply pf (GradingToneFwdOpCPU m_gt m_style) inImg outImg numPixels m = Returned m'
    /\ (forall i, (i < Z.to_nat numPixels)%nat ->
          load_pixel m' (outImg + 4 * i)
          = Fwd_pixel (getValue m_gt) (getComputedValue m_gt)
                      (load_pixel m (inImg + 4 * i)))
    /\ (forall a, (a < outImg \/ outImg + 4 * Z.to_nat numPixels <= a)%nat ->
          m' a = m a).
Proof.
  intros Hby Hb. simpl. rewrite Hby. eexists. split; [ reflexivity | split ].
  - intros i Hi. apply pixel_loop_load; try assumption.
    + intros in_ out m0 _. apply Fwd_body_load.
    + intros in_ out m0 a Ha. apply Fwd_body_other. exact Ha.
  - intros a Ha. apply pixel_loop_other; try assumption.
    intros in_ out m0 a0 Ha0. apply Fwd_body_other. exact Ha0.
Qed.

Lemma LinearFwd_apply_pixels pf m_gt m_style inImg outImg numPixels m :
  getLocalBypass m_gt = false ->
  buffers_ok inImg outImg (Z.to_nat numPixels) ->
  exists m',
    apply pf (GradingToneLinearFwdOpCPU m_gt m_style) inImg outImg numPixels m
    = Returned m'
    /\ (forall i, (i < Z.to_nat numPixels)%nat ->
          load_pixel m' (outImg + 4 * i)
          = LinearFwd_pixel pf (getValue m_gt) (getComputedValue m_gt)
                            (load_pixel m (inImg + 4 * i)))
    /\ (forall a, (a < outImg \/ outImg + 4 * Z.to_nat numPixels <= a)%nat ->
          m' a = m a).
Proof.
  intros Hby Hb. simpl. rewrite Hby. eexists. split; [ reflexivity | split ].
  - intros i Hi. apply pixel_loop_load; try assumption.
    + intros in_ out m0 H. apply LinearFwd_body_load. exact H.
    + intros in_ out m0 a Ha. apply LinearFwd_body_other. exact Ha.
  - intros a Ha. apply pixel_loop_other; try assumption.
    intros in_ out m0 a0 Ha0. apply LinearFwd_body_other. exact Ha0.
Qed.

(** C3.  The fixed order of the stages.  A forward [apply] that is not
    bypassed computes every output pixel from the input pixel at the same
    index by running the stages in this order: Midtone for R, G, B, then
    Master; Highlight for R, G, B, then Master; White for R, G, B, then
    Master; Shadow for R, G, B, then Master; Black for R, G, B, then
    Master; then Symmetric Contrast; and the clamp after all of them (for
    the linear-style renderer, with "Lin to log" before the stages and "Log
    to lin" between the stages and the clamp).  Within a band group the
    Master stage runs on the pixel that the R, G and B stages of the group
    have already adjusted.  Every turn of the plain loop does this to the
    pixel it reads, wherever the two pointers are; for buffers that are one
    buffer or do not overlap, the pixel read at an index is the input pixel
    at that index. *)
Theorem forward_stage_order :
  forall (pf : Platform) (m_gt : DynamicPropertyGradingToneImpl) (m_style : GradingStyle)
         (inImg outImg : nat) (numPixels : Z) (m : Mem),
    getLocalBypass m_gt = false ->
    buffers_ok inImg outImg (Z.to_nat numPixels) ->
    let v := getValue m_gt in
    let vpr := getComputedValue m_gt in
    stage_order
    = [CurveStage Midtone R; CurveStage Midtone G; CurveStage Midtone B;
       CurveStage Midtone M;
       CurveStage Highlight R; CurveStage Highlight G; CurveStage Highlight B;
       CurveStage Highlight M;
       CurveStage White R; CurveStage White G; CurveStage White B;
       CurveStage White M;
       CurveStage Shadow R; CurveStage Shadow G; CurveStage Shadow B;
       CurveStage Shadow M;
       CurveStage Black R; CurveStage Black G; CurveStage Black B;
       CurveStage Black M;
       SymmetricContrast]
    /\ (forall b px,
           run_stages v vpr (band_group b) px
           = run_stage v vpr (CurveStage b M)
               (run_stage v vpr (CurveStage b B)
                  (run_stage v vpr (CurveStage b G)
                     (run_stage v vpr (CurveStage b R) px))))
    /\ (forall px,
           run_stages v vpr stage_order px
           = scontrast v vpr
               (run_stages v vpr (band_group Black)
                  (run_stages v vpr (band_group Shadow)
                     (run_stages v vpr (band_group White)
                        (run_stages v vpr (band_group Highlight)
                           (run_stages v vpr (band_group Midtone) px))))))
    /\ (forall in_ out m0,
           load_pixel (Fwd_body v vpr in_ out m0) out
           = ClampMaxRGB (run_stages v vpr stage_order (load_pixel m0 in_)))
    /\ (exists m',
           apply pf (GradingToneFwdOpCPU m_gt m_style) inImg outImg numPixels m
           = Returned m'
           /\ forall i, (i < Z.to_nat numPixels)%nat ->
                load_pixel m' (outImg + 4 * i)
                = ClampMaxRGB (run_stages v vpr stage_order
                                          (load_pixel m (inImg + 4 * i))))
    /\ (exists m',
           apply pf (GradingToneLinearFwdOpCPU m_gt m_style) inImg outImg numPixels m
           = Returned m'
           /\ forall i, (i < Z.to_nat numPixels)%nat ->
                load_pixel m' (outImg + 4 * i)
                = ClampMaxRGB
                    (decode_pixel pf
                       (run_stages v vpr stage_order
                          (encode_pixel pf (load_pixel m (inImg + 4 * i)))))).
Proof.
  intros pf m_gt m_style inImg outImg numPixels m Hby Hb v vpr.
  split; [ reflexivity | ].
  split; [ intros b px; reflexivity | ].
  split.
  { intros px. unfold stage_order. rewrite !run_stages_app. reflexivity. }
  split; [ intros in_ out m0; apply Fwd_body_load | ].
  split.
  - destruct (@Fwd_apply_pixels pf m_gt m_style inImg outImg numPixels m Hby Hb) as [m' [E [Hpx _]]].
    exists m'. split; [ exact E | exact Hpx ].
  - destruct (@LinearFwd_apply_pixels pf m_gt m_style inImg outImg numPixels m Hby Hb) as [m' [E [Hpx _]]].
    exists m'. split; [ exact E | exact Hpx ].
Qed.

Lemma forward_stage_order_witness :
  exists m',
    apply plain_platform (GradingToneFwdOpCPU (midtone_prop false) GRADING_LOG)
          0 8 2 ramp_mem = Returned m'
    /\ forall i, (i < Z.to_nat 2)%nat ->
         load_pixel m' (8 + 4 * i)
         = ClampMaxRGB (run_stages midtone_tone sample_table stage_order
                                   (load_pixel ramp_mem (0 + 4 * i))).
Proof.
  refine (proj1 (proj2 (proj2 (proj2 (proj2
    (@forward_stage_order plain_platform (midtone_prop false) GRADING_LOG
       0 8 2 ramp_mem eq_refl _)))))).
  right; left. apply le_n.
Defined.

(* ================================================================== *)
(** * The bypass *)

(** C4.  Bypass fast path.  When the local-bypass flag is set, [apply] of
    either forward renderer returns with the output buffer holding the
    floats of the input buffer, all four of every pixel, in the same order,
    and with nothing else written; when the two buffers are one buffer the
    memory is untouched.  The result is the same for any controls and any
    coefficient table: no curve stage takes part in it.  (The buffers are
    one buffer or do not overlap, and the pixel count is not negative.) *)
Theorem bypass_copies_input :
  forall (pf : Platform) (m_gt : DynamicPropertyGradingToneImpl) (m_style : GradingStyle)
         (inImg outImg : nat) (numPixels : Z) (m : Mem),
    getLocalBypass m_gt = true ->
    (0 <= numPixels)%Z ->
    buffers_ok inImg outImg (Z.to_nat numPixels) ->
    exists m',
      apply pf (GradingToneFwdOpCPU m_gt m_style) inImg outImg numPixels m = Returned m'
      /\ apply pf (GradingToneLinearFwdOpCPU m_gt m_style) inImg outImg numPixels m
         = Returned m'
      /\ (forall j, (j < 4 * Z.to_nat numPixels)%nat ->
            m' (outImg + j)%nat = m (inImg + j)%nat)
      /\ (forall a, (a < outImg \/ outImg + 4 * Z.to_nat numPixels <= a)%nat ->
            m' a = m a)
      /\ (inImg = outImg -> m' = m)
      /\ (forall m_gt' m_style',
            getLocalBypass m_gt' = true ->
            apply pf (GradingToneFwdOpCPU m_gt' m_style') inImg outImg numPixels m
            = Returned m'
            /\ apply pf (GradingToneLinearFwdOpCPU m_gt' m_style') inImg outImg numPixels m
               = Returned m').
Proof.
  intros pf m_gt m_style inImg outImg numPixels m Hby Hn Hb.
  exists (bypass_copy inImg outImg numPixels m).
  simpl. rewrite Hby.
  split; [ reflexivity | ]. split; [ reflexivity | ].
  split; [ | split; [ | split ] ].
  - intros j Hj. unfold bypass_copy.
    destruct (Nat.eqb_spec inImg outImg) as [E | E]; simpl.
    + rewrite E. reflexivity.
    + apply memcpy_inside. lia.
  - intros a Ha. unfold bypass_copy.
    destruct (Nat.eqb_spec inImg outImg) as [E | E]; simpl.
    + reflexivity.
    + apply memcpy_other. lia.
  - intros E. unfold bypass_copy. rewrite E, Nat.eqb_refl. reflexivity.
  - intros m_gt' m_style' Hby'. rewrite Hby'. split; reflexivity.
Qed.

Lemma bypass_copies_input_witness :
  exists m',
    apply plain_platform (GradingToneFwdOpCPU (midtone_prop true) GRADING_LOG)
          0 8 2 ramp_mem = Returned m'
    /\ apply plain_platform (GradingToneLinearFwdOpCPU (midtone_prop true) GRADING_LOG)
             0 8 2 ramp_mem = Returned m'
    /\ (forall j, (j < 4 * Z.to_nat 2)%nat -> m' (8 + j)%nat = ramp_mem (0 + j)%nat)
    /\ (forall a, (a < 8 \/ 8 + 4 * Z.to_nat 2 <= a)%nat -> m' a = ramp_mem a)
    /\ (0%nat = 8%nat -> m' = ramp_mem)
    /\ (forall m_gt' m_style',
          getLocalBypass m_gt' = true ->
          apply plain_platform (GradingToneFwdOpCPU m_gt' m_style') 0 8 2 ramp_mem
          = Returned m'
          /\ apply plain_platform (GradingToneLinearFwdOpCPU m_gt' m_style') 0 8 2 ramp_mem
             = Returned m').
Proof.
  refine (@bypass_copies_input plain_platform (midtone_prop true) GRADING_LOG
            0 8 2 ramp_mem eq_refl _ _).
  - discriminate.
  - right; left. apply le_n.
Defined.

(* ================================================================== *)
(** * The output clamp *)

Lemma leb_not_gtb (a b : float) : (a <= b) = true -> (b < a) = false.
Proof.
  unfold F32.leb, F32.ltb, SFleb, SFltb. rewrite (SFcompare_swap a b).
  destruct (SFcompare a b) as [[ | | ]|]; simpl; congruence.
Qed.

Lemma is_nan_not_ltb (a b : float) : is_nan a = true -> (b < a) = false.
Proof.
  destruct a; try discriminate. intros _. destruct b; reflexivity.
Qed.

(** [std::min(c, 65504.f)] on one component. *)
Lemma std_min_clamped (c : float) : clamped_component c (std_min c f65504).
Proof.
  unfold clamped_component, std_min.
  change (c > f65504) with (f65504 < c).
  split; [ | split; [ | split ] ].
  - intros H. rewrite H. reflexivity.
  - intros H. rewrite (leb_not_gtb _ _ H). reflexivity.
  - intros H. rewrite (is_nan_not_ltb _ f65504 H). exact H.
  - destruct (f65504 < c) eqn:E.
    + right. reflexivity.
    + destruct (is_nan c) eqn:N; [ left; reflexivity | right ].
      apply not_ltb_leb; [ exact N | reflexivity | exact E ].
Qed.

Lemma ClampMaxRGB_clamped (c : Pixel) : clamped_pixel c (ClampMaxRGB c).
Proof.
  unfold clamped_pixel, ClampMaxRGB; cbn [px0 px1 px2 px3].
  repeat split; apply std_min_clamped.
Qed.

(** C5, as the claim states it, fails: a colour component that is a NaN
    passes through [std::min(out[0], 65504.f)] and is not at most 65504.
    Here the red component of the only pixel is a NaN and all controls are
    neutral. *)
Lemma clamp_leaves_nan :
  exists m',
    apply plain_platform (GradingToneFwdOpCPU (neutral_prop false) GRADING_LOG)
          0 0 1 (mem_of_pixel nan_pixel) = Returned m'
    /\ (m' 0%nat <= f65504) = false.
Proof.
  eexists. split; [ reflexivity | ]. vm_compute. reflexivity.
Qed.

(** C5, amended.  Output clamp.  For every pixel that a forward [apply]
    that is not bypassed produces, each of the three colour components of
    the output is what the clamp makes of the component computed by the
    stages (and by "Log to lin" in the linear style): exactly 65504 when the
    computed value exceeds 65504, the computed value itself when that is at
    most 65504, and a NaN when that is a NaN; so each output component is at
    most 65504 or is a NaN.  The fourth component is the one computed: the
    clamp never alters it. *)
Theorem clamp_max_rgb :
  forall (pf : Platform) (m_gt : DynamicPropertyGradingToneImpl) (m_style : GradingStyle)
         (inImg outImg : nat) (numPixels : Z) (m : Mem),
    getLocalBypass m_gt = false ->
    buffers_ok inImg outImg (Z.to_nat numPixels) ->
    let v := getValue m_gt in
    let vpr := getComputedValue m_gt in
    (exists m',
        apply pf (GradingToneFwdOpCPU m_gt m_style) inImg outImg numPixels m
        = Returned m'
        /\ forall i, (i < Z.to_nat numPixels)%nat ->
             clamped_pixel
               (run_stages v vpr stage_order (load_pixel m (inImg + 4 * i)))
               (load_pixel m' (outImg + 4 * i)))
    /\ (exists m',
           apply pf (GradingToneLinearFwdOpCPU m_gt m_style) inImg outImg numPixels m
           = Returned m'
           /\ forall i, (i < Z.to_nat numPixels)%nat ->
                clamped_pixel
                  (decode_pixel pf
                     (run_stages v vpr stage_order
                        (encode_pixel pf (load_pixel m (inImg + 4 * i)))))
                  (load_pixel m' (outImg + 4 * i))).
Proof.
  intros pf m_gt m_style inImg outImg numPixels m Hby Hb v vpr. split.
  - destruct (@Fwd_apply_pixels pf m_gt m_style inImg outImg numPixels m Hby Hb)
      as [m' [E [Hpx _]]].
    exists m'. split; [ exact E | ].
    intros i Hi. rewrite (Hpx i Hi). apply ClampMaxRGB_clamped.
  - destruct (@LinearFwd_apply_pixels pf m_gt m_style inImg outImg numPixels m Hby Hb)
      as [m' [E [Hpx _]]].
    exists m'. split; [ exact E | ].
    intros i Hi. rewrite (Hpx i Hi). apply ClampMaxRGB_clamped.
Qed.

Lemma clamp_max_rgb_witness :
  exists m',
    apply plain_platform (GradingToneFwdOpCPU (midtone_prop false) GRADING_LOG)
          0 0 2 ramp_mem = Returned m'
    /\ forall i, (i < Z.to_nat 2)%nat ->
         clamped_pixel
           (run_stages midtone_tone sample_table stage_order
                       (load_pixel ramp_mem (0 + 4 * i)))
           (load_pixel m' (0 + 4 * i)).
Proof.
  refine (proj1 (@clamp_max_rgb plain_platform (midtone_prop false) GRADING_LOG
                   0 0 2 ramp_mem eq_refl _)).
  left. reflexivity.
Defined.

(* ================================================================== *)
(** * The fourth float through the forward renderers *)

(** The plain renderer keeps the fourth float of every pixel. *)
Lemma Fwd_pixel_alpha v vpr px : px3 (Fwd_pixel v vpr px) = px3 px.
Proof. unfold Fwd_pixel. rewrite px3_ClampMaxRGB. apply px3_run_stages. Qed.

(** So does the linear-style renderer in a build without [USE_SSE], where
    "Lin to log" copies it ([out[3] = in[3]]) and "Log to lin" skips it. *)
Lemma LinearFwd_pixel_alpha_without_sse pf v vpr px :
  USE_SSE pf = false -> px3 (LinearFwd_pixel pf v vpr px) = px3 px.
Proof.
  intros H. unfold LinearFwd_pixel, decode_pixel, encode_pixel. rewrite H.
  rewrite px3_ClampMaxRGB. cbn [px3]. rewrite px3_run_stages. reflexivity.
Qed.

(** Under [USE_SSE] both blocks work on all four lanes.  Lane 3 takes the
    linear branch of either block when it is not above the breakpoint. *)
Lemma sse_lin_to_log_lane3 pf pix :
  (l3 pix > xbrk) = false -> l3 (sse_lin_to_log pf pix) = l3 pix * gain + offs.
Proof.
  intros H. unfold sse_lin_to_log, mm_select, mm_cmpgt_ps, mm_set1_ps.
  cbn [l3 k3]. rewrite H. reflexivity.
Qed.

Lemma sse_log_to_lin_lane3 pf pix :
  (l3 pix > ybrk) = false -> l3 (sse_log_to_lin pf pix) = (l3 pix - offs) * (f1 / gain).
Proof.
  intros H. unfold sse_log_to_lin, mm_select, mm_cmpgt_ps, mm_set1_ps.
  cbn [l3 k3]. rewrite H. reflexivity.
Qed.

Lemma LinearFwd_pixel_alpha_with_sse pf v vpr r g b a :
  USE_SSE pf = true ->
  (a > xbrk) = false ->
  (a * gain + offs > ybrk) = false ->
  px3 (LinearFwd_pixel pf v vpr (mkPixel r g b a))
  = (a * gain + offs - offs) * (f1 / gain).
Proof.
  intros Hsse Hx Hy. unfold LinearFwd_pixel. rewrite px3_ClampMaxRGB.
  unfold decode_pixel. rewrite Hsse. cbn [px3].
  assert (E : px3 (run_stages v vpr stage_order (encode_pixel pf (mkPixel r g b a)))
              = a * gain + offs).
  { rewrite px3_run_stages. unfold encode_pixel. rewrite Hsse. cbn [px0 px1 px2 px3].
    rewrite sse_lin_to_log_lane3 by exact Hx. reflexivity. }
  rewrite sse_log_to_lin_lane3; cbn [l3]; rewrite E; [ reflexivity | exact Hy ].
Qed.

(** C6.  The alpha frame property fails in the build with [USE_SSE]: the
    linear-style renderer sends the fourth lane through "Lin to log" and
    "Log to lin" with the colour lanes.  For an alpha of 1/255 (the float
    8421505 * 2^-31), whatever the colour components, the controls, the
    coefficient table, [sseLog2] and [ssePower] are, the output alpha is
    8421504 * 2^-31, one unit in the last place below the input alpha. *)
Theorem linear_sse_alters_alpha :
  forall (lg pw : float -> float) (slg : m128 -> m128) (spw : m128 -> m128 -> m128)
         (v : GradingTone) (vpr : GradingTonePreRender) (dyn : bool)
         (m_style : GradingStyle) (r g b : float),
    exists m',
      apply (mkPlatform true lg pw slg spw)
            (GradingToneLinearFwdOpCPU (mkDynProp v vpr false dyn) m_style)
            0 0 1 (mem_of_pixel (pixel_of r g b alpha_1_255)) = Returned m'
      /\ m' 3%nat = lit 8421504 (-31)
      /\ m' 3%nat <> mem_of_pixel (pixel_of r g b alpha_1_255) 3%nat.
Proof.
  intros lg pw slg spw v vpr dyn m_style r g b.
  destruct (@LinearFwd_apply_pixels (mkPlatform true lg pw slg spw)
              (mkDynProp v vpr false dyn) m_style 0 0 1
              (mem_of_pixel (pixel_of r g b alpha_1_255)) eq_refl
              (or_introl eq_refl)) as [m' [E [Hpx _]]].
  exists m'. split; [ exact E | ].
  assert (H3 : m' 3%nat = lit 8421504 (-31)).
  { change (m' 3%nat) with (px3 (load_pixel m' (0 + 4 * 0))).
    rewrite (Hpx 0%nat) by (apply Nat.lt_0_1).
    change (load_pixel (mem_of_pixel (pixel_of r g b alpha_1_255)) (0 + 4 * 0))
      with (mkPixel r g b alpha_1_255).
    cbn [getValue getComputedValue].
    rewrite LinearFwd_pixel_alpha_with_sse by reflexivity.
    vm_compute. reflexivity. }
  split; [ exact H3 | ].
  rewrite H3. cbn. unfold alpha_1_255, lit. congruence.
Qed.

(* ================================================================== *)
(** * The Midtone Curve: the scalar path and the master path *)

Lemma add_comm (a b : float) : a + b = b + a.
Proof.
  destruct a as [sa|sa| |sa ma ea]; destruct b as [sb|sb| |sb mb eb];
    try reflexivity; try (destruct sa, sb; reflexivity).
  unfold F32.add, SFadd. rewrite (Z.min_comm eb ea). f_equal. apply Z.add_comm.
Qed.

(** When [t] is strictly below or strictly above a limit, the test [t >
    limit] of the scalar path and the test [!(t < limit)] of [setOnLimit]
    agree. *)
Lemma gtb_negb_ltb (t x : float) :
  (t < x) = true \/ (x < t) = true -> (t > x) = negb (t < x).
Proof.
  unfold F32.gtb. intros [H | H].
  - rewrite H. apply ltb_asym. exact H.
  - change (SFltb x t) with (x < t). rewrite H, (ltb_asym _ _ H). reflexivity.
Qed.

(** Away from the breakpoints [x2 .. x5], the master path computes for a
    component what the scalar path computes for it from the same
    coefficients. *)
Lemma mids_master_scalar_agree
    (x0 x1 x2 x3 x4 x5 y0 y1 y2 y3 y4 y5 m0 m1 m2 m3 m4 m5 t u w : float) :
  ((t < x2) = true \/ (x2 < t) = true) ->
  ((t < x3) = true \/ (x3 < t) = true) ->
  ((t < x4) = true \/ (x4 < t) = true) ->
  ((t < x5) = true \/ (x5 < t) = true) ->
  v0 (mids_master x0 x1 x2 x3 x4 x5 y0 y1 y2 y3 y4 y5 m0 m1 m2 m3 m4 m5
                  (mkFloat3 t u w))
  = mids_scalar x0 x1 x2 x3 x4 x5 y0 y1 y2 y3 y4 y5 m0 m1 m2 m3 m4 m5 t.
Proof.
  intros H2 H3 H4 H5.
  unfold mids_master, mids_scalar, float3_setOnLimit.
  cbn [v0 v1 v2 sub_tf div_tf mul_tf mul_tt add_tf ToneType_float3
       float3_sub_f float3_div_f float3_mul_f float3_mul float3_add_f].
  rewrite (gtb_negb_ltb _ _ H2), (gtb_negb_ltb _ _ H3), (gtb_negb_ltb _ _ H4),
    (gtb_negb_ltb _ _ H5).
  rewrite (add_comm y0 ((t - x0) * m0)), (add_comm y5 ((t - x5) * m5)).
  destruct (t < x0), (t < x1), (t < x2), (t < x3), (t < x4), (t < x5); reflexivity.
Qed.

(** C7.  The two paths of the Midtone Curve differ at a breakpoint.  The
    sample table has the same coefficients for the channel R and for the
    master channel, strictly increasing breakpoints, and a curve that is
    continuous in exact arithmetic; the midtone control is 0.5 on both.
    For a red component equal to the breakpoint [x2 = 3.0], the scalar path
    (channel R) evaluates the segment on the left of [x2] and returns 0.5,
    and the master path evaluates the segment on the right of [x2] and
    returns 0.5 + 2^-23. *)
Theorem mids_master_differs_from_scalar_at_x2 :
  let px := pixel_of f3 f3 f3 f1 in
  mid_coeffs sample_table R = mid_coeffs sample_table M
  /\ GetChannelValue (m_midtones midtone_tone) R
     = GetChannelValue (m_midtones midtone_tone) M
  /\ increasing_breakpoints (mid_coeffs sample_table R)
  /\ forallb (exactly_continuous sample_midX sample_midY sample_midM)
             [0; 1; 2; 3; 4]%nat = true
  /\ rd px 0 = mx (mid_coeffs sample_table R) 2
  /\ px0 (mids midtone_tone sample_table R px) = lit 8388608 (-24)
  /\ px0 (mids midtone_tone sample_table M px) = lit 8388610 (-24)
  /\ px0 (mids midtone_tone sample_table R px)
     <> px0 (mids midtone_tone sample_table M px).
Proof.
  vm_compute. repeat split; try reflexivity. discriminate.
Qed.

(* ================================================================== *)
(** * The Midtone Curve contract *)

(** The clamped midtone control lies in [[0.01, 1.99]], whatever the
    control is (a NaN control is clamped to 0.01). *)
Lemma Clamp_bounds (a : float) :
  (f0_01 <= Clamp a f0_01 f1_99) = true /\ (Clamp a f0_01 f1_99 <= f1_99) = true.
Proof.
  unfold Clamp, std_min, std_max.
  destruct (f0_01 < a) eqn:E1.
  - destruct (f1_99 < a) eqn:E2.
    + split; reflexivity.
    + split.
      * apply ltb_leb. exact E1.
      * apply not_ltb_leb; [ exact (proj2 (ltb_not_nan _ _ E1)) | reflexivity | exact E2 ].
  - replace (f1_99 < f0_01) with false by reflexivity. split; reflexivity.
Qed.

(** The assignments of the scalar path select the segment by the strict
    comparisons of [select_segment], for any coefficients. *)
Lemma mids_scalar_midtone_curve (k : MidCoeffs) (t : float) :
  mids_scalar (mx k 0) (mx k 1) (mx k 2) (mx k 3) (mx k 4) (mx k 5)
              (my k 0) (my k 1) (my k 2) (my k 3) (my k 4) (my k 5)
              (mm k 0) (mm k 1) (mm k 2) (mm k 3) (mm k 4) (mm k 5) t
  = midtone_curve k t.
Proof.
  unfold mids_scalar, midtone_curve, select_segment, segment, blend.
  destruct (t > mx k 5), (t < mx k 0), (t > mx k 4), (t > mx k 3),
    (t > mx k 2), (t < mx k 1); reflexivity.
Qed.

(** With increasing breakpoints the selection is the partition of the line
    into the part below [x0], the five segments, and the part above [x5]. *)
Lemma midtone_curve_partition (k : MidCoeffs) (t : float) :
  increasing_breakpoints k -> midtone_curve k t = midtone_partition k t.
Proof.
  intros (H01 & H12 & H23 & H34 & H45).
  assert (F01 : (t < mx k 0) = true -> (t < mx k 1) = true)
    by (intros H; exact (ltb_trans _ _ _ H H01)).
  assert (F54 : (t > mx k 5) = true -> (t > mx k 4) = true)
    by (intros H; exact (ltb_trans _ _ _ H45 H)).
  assert (F43 : (t > mx k 4) = true -> (t > mx k 3) = true)
    by (intros H; exact (ltb_trans _ _ _ H34 H)).
  assert (F32 : (t > mx k 3) = true -> (t > mx k 2) = true)
    by (intros H; exact (ltb_trans _ _ _ H23 H)).
  assert (F21 : (t > mx k 2) = true -> (t < mx k 1) = false)
    by (intros H; exact (ltb_asym _ _ (ltb_trans _ _ _ H12 H))).
  unfold midtone_curve, midtone_partition, select_segment.
  destruct (t < mx k 0) eqn:A0; destruct (t < mx k 1) eqn:A1;
    destruct (t > mx k 2) eqn:B2; destruct (t > mx k 3) eqn:B3;
    destruct (t > mx k 4) eqn:B4; destruct (t > mx k 5) eqn:B5;
    simpl; try reflexivity; exfalso;
    repeat match goal with
           | F : ?a = true -> _ |- _ =>
               first [ specialize (F eq_refl) | clear F ]
           end; congruence.
Qed.

(** C8.  Midtone Curve contract.  The midtone control is first clamped to
    [[0.01, 1.99]].  When the clamped control is not 1.0, the evaluator
    replaces the scalar input [t], the component of its channel, by the
    value of the curve: the linear extrapolation [y0 + (t - x0) m0] for [t]
    below [x0] and [y5 + (t - x5) m5] for [t] above [x5], and otherwise the
    blend [u (x_right - x_left) (u 0.5 (m_right - m_left) + m_left) + y_left]
    with [u = (t - x_left) / (x_right - x_left)] of the segment selected by
    the strict comparisons [t < x1], [t > x2], [t > x3], [t > x4]; with
    increasing breakpoints these are the five segments of the partition of
    [[x0, x5]] by [x1 .. x4]. *)
Theorem midtone_curve_contract :
  forall (v : GradingTone) (vpr : GradingTonePreRender) (channel : RGBMChannel)
         (out : Pixel),
    is_master channel = false ->
    let c := Clamp (GetChannelValue (m_midtones v) channel) f0_01 f1_99 in
    let k := mid_coeffs vpr channel in
    let t := rd out (channel_index channel) in
    (c != f1) = true ->
    increasing_breakpoints k ->
    (f0_01 <= c) = true /\ (c <= f1_99) = true
    /\ mids v vpr channel out = wr out (channel_index channel) (midtone_curve k t)
    /\ midtone_curve k t = midtone_partition k t.
Proof.
  intros v vpr channel out Hch c k t Hc Hinc.
  split; [ apply Clamp_bounds | ]. split; [ apply Clamp_bounds | ]. split.
  - unfold mids. fold c. rewrite Hc, Hch. cbn [negb].
    rewrite <- (mids_scalar_midtone_curve k t). reflexivity.
  - apply midtone_curve_partition. exact Hinc.
Qed.

Lemma midtone_curve_contract_witness :
  let out := pixel_of f1 (lit 10485760 (-22)) f3 f1 in
  let c := Clamp (GetChannelValue (m_midtones midtone_tone) G) f0_01 f1_99 in
  let k := mid_coeffs sample_table G in
  let t := rd out (channel_index G) in
  (f0_01 <= c) = true /\ (c <= f1_99) = true
  /\ mids midtone_tone sample_table G out = wr out (channel_index G) (midtone_curve k t)
  /\ midtone_curve k t = midtone_partition k t.
Proof.
  refine (@midtone_curve_contract midtone_tone sample_table G
            (pixel_of f1 (lit 10485760 (-22)) f3 f1) eq_refl eq_refl _).
  repeat split; reflexivity.
Defined.

(* ================================================================== *)
(** * Symmetric contrast: the corrected regions *)

(** One component of the colour that [scontrast] computes. *)
Lemma scontrast_color_component (vpr : GradingTonePreRender) (c : float) (t : float3)
    (get : float3 -> float) :
  (get = v0 \/ get = v1 \/ get = v2) ->
  get (scontrast_color vpr c t)
  = match contrast_correction (m_scX vpr) (m_scY vpr) (m_scM vpr) (get t) with
    | Some r => r
    | None => (get t - m_pivot vpr) * c + m_pivot vpr
    end.
Proof.
  intros Hget.
  unfold scontrast_color, contrast_correction, blend.
  cbn [setOnLimit add_ft add_tf sub_tf mul_tf mul_tt div_tf ToneType_float3].
  unfold float3_setOnLimit, float3_f_add, float3_add_f, float3_sub_f,
    float3_mul_f, float3_mul, float3_div_f.
  rewrite (add_comm (m_scY vpr 1%nat 1%nat)), (add_comm (m_scY vpr 0%nat 2%nat)).
  destruct Hget as [-> | [-> | ->]]; cbn [v0 v1 v2];
    match goal with
    | |- context [?x < m_scX vpr 1%nat 1%nat] =>
        destruct (x < m_scX vpr 1%nat 1%nat), (x < m_scX vpr 1%nat 2%nat),
          (x < m_scX vpr 0%nat 2%nat), (x < m_scX vpr 0%nat 1%nat)
    end; reflexivity.
Qed.

(** C10.  In the Symmetric Contrast stage with a contrast that is not
    neutral, each colour component of the output is selected by comparing
    the component [t] of the input, as it was before the contrast, with the
    breakpoints of the bottom-end and top-end corrections.  In a corrected
    region ([contrast_correction] gives a value) the output component is
    that value, a function of [t] and of the tables [m_scX], [m_scY] and
    [m_scM] alone: it is the same for any other non-neutral contrast and
    any other pivot.  Only between the two regions is the output the linear
    contrast [(t - pivot) c + pivot] with the remapped multiplier [c]. *)
Theorem contrast_correction_regions :
  forall (v : GradingTone) (vpr : GradingTonePreRender) (out : Pixel),
    (float_of_double (m_scontrast v) != f1) = true ->
    let c := scontrast_remap (float_of_double (m_scontrast v)) in
    let o := scontrast v vpr out in
    (forall i, (i < 3)%nat ->
       rd o i
       = match contrast_correction (m_scX vpr) (m_scY vpr) (m_scM vpr) (rd out i) with
         | Some r => r
         | None => (rd out i - m_pivot vpr) * c + m_pivot vpr
         end)
    /\ (forall v' vpr' i r,
          (i < 3)%nat ->
          (float_of_double (m_scontrast v') != f1) = true ->
          m_scX vpr' = m_scX vpr -> m_scY vpr' = m_scY vpr -> m_scM vpr' = m_scM vpr ->
          contrast_correction (m_scX vpr) (m_scY vpr) (m_scM vpr) (rd out i) = Some r ->
          rd o i = r /\ rd (scontrast v' vpr' out) i = r).
Proof.
  intros v vpr out Hc c o.
  assert (Hall : forall w wpr i,
             (float_of_double (m_scontrast w) != f1) = true -> (i < 3)%nat ->
             rd (scontrast w wpr out) i
             = match contrast_correction (m_scX wpr) (m_scY wpr) (m_scM wpr)
                       (rd out i) with
               | Some r => r
               | None => (rd out i - m_pivot wpr)
                         * scontrast_remap (float_of_double (m_scontrast w))
                         + m_pivot wpr
               end).
  { intros w wpr i H1 Hi. unfold scontrast. rewrite H1.
    destruct i as [ | [ | [ | i]]]; [ | | | lia ]; cbn [rd px0 px1 px2].
    - rewrite (scontrast_color_component wpr _ (float3_of out) (get := v0))
        by (left; reflexivity). reflexivity.
    - rewrite (scontrast_color_component wpr _ (float3_of out) (get := v1))
        by (right; left; reflexivity). reflexivity.
    - rewrite (scontrast_color_component wpr _ (float3_of out) (get := v2))
        by (right; right; reflexivity). reflexivity. }
  split.
  - intros i Hi. apply Hall; assumption.
  - intros v' vpr' i r Hi Hc' EX EY EM Hr. split.
    + unfold o. rewrite (Hall v vpr i Hc Hi), Hr. reflexivity.
    + rewrite (Hall v' vpr' i Hc' Hi), EX, EY, EM, Hr. reflexivity.
Qed.

Lemma contrast_correction_regions_witness :
  let out := pixel_of f3 f0_5 f1 f1 in
  let c := scontrast_remap (float_of_double (m_scontrast contrast_tone)) in
  let o := scontrast contrast_tone sample_table out in
  (forall i, (i < 3)%nat ->
     rd o i
     = match contrast_correction (m_scX sample_table) (m_scY sample_table)
               (m_scM sample_table) (rd out i) with
       | Some r => r
       | None => (rd out i - m_pivot sample_table) * c + m_pivot sample_table
       end)
  /\ (forall v' vpr' i r,
        (i < 3)%nat ->
        (float_of_double (m_scontrast v') != f1) = true ->
        m_scX vpr' = m_scX sample_table -> m_scY vpr' = m_scY sample_table ->
        m_scM vpr' = m_scM sample_table ->
        contrast_correction (m_scX sample_table) (m_scY sample_table)
          (m_scM sample_table) (rd out i) = Some r ->
        rd o i = r /\ rd (scontrast v' vpr' out) i = r).
Proof.
  exact (@contrast_correction_regions contrast_tone sample_table
           (pixel_of f3 f0_5 f1 f1) eq_refl).
Defined.

(* ================================================================== *)
(** * Worked examples *)

(** The scalar Midtone Curve on the sample table: 2.5 lies in the segment
    from [x1 = 1] to [x2 = 3], with [u = 0.75], and is sent to 0. *)
Example mids_sample_segment :
  mids midtone_tone sample_table R (pixel_of (lit 10485760 (-22)) f1 f1 f1)
  = pixel_of fzero f1 f1 f1.
Proof. vm_compute. reflexivity. Qed.

(** Symmetric contrast at 0.5 on the sample table, whose corrections are
    the identity with the bottom region below 0.5 and the top region from
    2 on: the components 3 and 0.25 lie in a corrected region and come out
    as they are, not as the linear contrast would make them; the multiplier
    is 0.640625. *)
Example scontrast_sample_regions :
  scontrast contrast_tone sample_table (pixel_of f3 (lit 8388608 (-25)) f1 f1)
  = pixel_of f3 (lit 8388608 (-25)) f1 f1
  /\ scontrast_remap (float_of_double d0_5) = lit 10747904 (-24)
  /\ contrast_correction (m_scX sample_table) (m_scY sample_table)
       (m_scM sample_table) f1 = None.
Proof. vm_compute. repeat split. Qed.

(** The plain renderer on two pixels, out of place: the second output
    pixel, from the input pixel (4, 5, 6, 7). *)
Example Fwd_apply_sample :
  exists m',
    apply plain_platform (GradingToneFwdOpCPU (midtone_prop false) GRADING_LOG)
          0 8 2 ramp_mem = Returned m'
    /\ load_pixel m' 12
       = mkPixel (nlit 16777212 (-24)) (lit 8388608 (-44)) (lit 8388614 (-23))
                 (lit 14680064 (-21)).
Proof. eexists. split; [ reflexivity | vm_compute; reflexivity ]. Qed.

(** The linear branches of "Lin to log" and "Log to lin" do not undo each
    other exactly in binary32, whatever the logarithm and the power are:
    1/255 comes back one unit in the last place lower, and 2^-33 comes back
    as zero. *)
Example linear_branch_round_trip :
  forall pf : Platform,
    log_to_lin pf (lin_to_log pf alpha_1_255) = lit 8421504 (-31)
    /\ log_to_lin pf (lin_to_log pf (lit 8388608 (-56))) = fzero.
Proof. intros pf. vm_compute. split; reflexivity. Qed.

(* ================================================================== *)
(** * Dynamic properties of a renderer *)

(** X1.  [getDynamicProperty] returns the renderer's own property pointer
    exactly when [hasDynamicProperty] answers true for the type.  When it
    answers false the call throws: "GradingTone property is not dynamic."
    for the grading-tone type, and "Dynamic property type not supported by
    GradingTone." for every other type, whether the property is dynamic or
    not. *)
Theorem getDynamicProperty_iff_has :
  forall (h : PropHeap) (this : GradingToneOpCPU) (type : DynamicPropertyType),
    (hasDynamicProperty h this type = true ->
       type = DYNAMIC_PROPERTY_GRADING_TONE
       /\ getDynamicProperty h this type = Ok (m_gt this))
    /\ (hasDynamicProperty h this type = false ->
          getDynamicProperty h this type
          = Exception (if is_grading_tone type
                       then "GradingTone property is not dynamic."
                       else "Dynamic property type not supported by GradingTone."))
    /\ (type <> DYNAMIC_PROPERTY_GRADING_TONE ->
          hasDynamicProperty h this type = false).
Proof.
  intros h this type. unfold hasDynamicProperty, getDynamicProperty.
  split; [ | split ].
  - destruct type; simpl; try discriminate. intros H. rewrite H. split; reflexivity.
  - destruct type; simpl; try reflexivity. intros H. rewrite H. reflexivity.
  - destruct type; simpl; try reflexivity. intros H. exfalso. apply H. reflexivity.
Qed.

Lemma getDynamicProperty_iff_has_witness :
  DYNAMIC_PROPERTY_GRADING_TONE = DYNAMIC_PROPERTY_GRADING_TONE
  /\ getDynamicProperty sample_heap (mkGradingToneOpCPU 0 GRADING_LOG)
       DYNAMIC_PROPERTY_GRADING_TONE = Ok 0%nat.
Proof.
  exact (proj1 (getDynamicProperty_iff_has sample_heap
                  (mkGradingToneOpCPU 0 GRADING_LOG) DYNAMIC_PROPERTY_GRADING_TONE)
               eq_refl).
Defined.

(** One call of [unifyDynamicProperty] for the grading-tone type. *)
Lemma unify_null cec h this :
  unifyDynamicProperty cec h this DYNAMIC_PROPERTY_GRADING_TONE None
  = Unified (fst (heap_alloc h (cec (objs h (m_gt this)))))
            (Some (next_free h))
            (mkGradingToneOpCPU (next_free h) (m_style this)).
Proof. reflexivity. Qed.




(** [unifyDynamicProperty] for any other type changes nothing - not
    the heap, not the caller's pointer, not [m_gt] - and hands the call to
    [OpCPU::unifyDynamicProperty]; for the grading-tone type it never does,
    and the renderer ends pointing where the caller's pointer points. *)
Theorem unify_other_type_untouched :
  forall (cec : DynamicPropertyGradingToneImpl -> DynamicPropertyGradingToneImpl)
         (h : PropHeap) (this : GradingToneOpCPU) (type : DynamicPropertyType)
         (prop : option nat),
    (type <> DYNAMIC_PROPERTY_GRADING_TONE ->
       unifyDynamicProperty cec h this type prop = ToOpCPU h prop this)
    /\ (type = DYNAMIC_PROPERTY_GRADING_TONE ->
          exists h' p,
            unifyDynamicProperty cec h this type prop
            = Unified h' (Some p) (mkGradingToneOpCPU p (m_style this))
            /\ (forall q, prop = Some q -> p = q /\ h' = h)).
Proof.
  intros cec h this type prop. split.
  - intros H. destruct type; try reflexivity. exfalso. apply H. reflexivity.
  - intros ->. destruct prop as [q | ].
    + exists h, q. split; [ reflexivity | ].
      intros q' E. injection E as <-. split; reflexivity.
    + eexists _, _. split; [ apply unify_null | ]. intros q E. discriminate.
Qed.

Lemma unify_other_type_untouched_witness :
  unifyDynamicProperty (fun o => o) sample_heap (mkGradingToneOpCPU 0 GRADING_LOG)
    DYNAMIC_PROPERTY_GAMMA None
  = ToOpCPU sample_heap None (mkGradingToneOpCPU 0 GRADING_LOG).
Proof.
  refine (proj1 (unify_other_type_untouched (fun o => o) sample_heap
                   (mkGradingToneOpCPU 0 GRADING_LOG) DYNAMIC_PROPERTY_GAMMA None) _).
  discriminate.
Defined.

(* ================================================================== *)
(** * The forward renderers on buffers *)



Lemma pixel_loop_split body n1 : forall n2 in_ out m,
  pixel_loop body (n1 + n2) in_ out m
  = pixel_loop body n2 (in_ + 4 * n1) (out + 4 * n1) (pixel_loop body n1 in_ out m).
Proof.
  induction n1 as [ | n1 IH]; intros n2 in_ out m.
  - simpl. rewrite !Nat.add_0_r. reflexivity.
  - simpl pixel_loop. rewrite IH. f_equal; lia.
Qed.

(** X4.  Tiling.  A forward [apply] that is not bypassed, on [n1 + n2]
    pixels, is the [apply] on the first [n1] pixels followed by the [apply]
    on the other [n2] pixels, with both pointers advanced by [4 * n1]
    floats: no state is carried from one pixel to the next.  This holds for
    any two pointers. *)
Theorem forward_apply_tiles :
  forall (pf : Platform) (m_gt : DynamicPropertyGradingToneImpl) (m_style : GradingStyle)
         (linear : bool) (inImg outImg : nat) (n1 n2 : Z) (m : Mem),
    getLocalBypass m_gt = false ->
    (0 <= n1)%Z -> (0 <= n2)%Z ->
    let op := if linear then GradingToneLinearFwdOpCPU m_gt m_style
              else GradingToneFwdOpCPU m_gt m_style in
    exists m1,
      apply pf op inImg outImg n1 m = Returned m1
      /\ apply pf op inImg outImg (n1 + n2) m
         = apply pf op (inImg + 4 * Z.to_nat n1) (outImg + 4 * Z.to_nat n1) n2 m1.
Proof.
  intros pf m_gt m_style linear inImg outImg n1 n2 m Hby H1 H2 op. unfold op.
  destruct linear; simpl; rewrite Hby; eexists; (split; [ reflexivity | ]);
    rewrite Z2Nat.inj_add by assumption; rewrite pixel_loop_split; reflexivity.
Qed.

Lemma forward_apply_tiles_witness :
  exists m1,
    apply plain_platform (GradingToneFwdOpCPU (midtone_prop false) GRADING_LOG)
          0 16 1 ramp_mem = Returned m1
    /\ apply plain_platform (GradingToneFwdOpCPU (midtone_prop false) GRADING_LOG)
             0 16 (1 + 2) ramp_mem
       = apply plain_platform (GradingToneFwdOpCPU (midtone_prop false) GRADING_LOG)
               (0 + 4 * Z.to_nat 1) (16 + 4 * Z.to_nat 1) 2 m1.
Proof.
  refine (@forward_apply_tiles plain_platform (midtone_prop false) GRADING_LOG false
            0 16 1 2 ramp_mem eq_refl _ _); discriminate.
Defined.

(** X5.  Alpha through the renderers that keep it.  The plain forward
    renderer, and the linear-style one in a build without [USE_SSE], return
    with the fourth float of every output pixel equal to the fourth float of
    the input pixel at the same index (for buffers that are one buffer or do
    not overlap), whatever the controls and the coefficient table are. *)
Theorem forward_alpha_preserved :
  forall (pf : Platform) (m_gt : DynamicPropertyGradingToneImpl) (m_style : GradingStyle)
         (linear : bool) (inImg outImg : nat) (numPixels : Z) (m : Mem),
    getLocalBypass m_gt = false ->
    (linear = true -> USE_SSE pf = false) ->
    buffers_ok inImg outImg (Z.to_nat numPixels) ->
    exists m',
      apply pf (if linear then GradingToneLinearFwdOpCPU m_gt m_style
                else GradingToneFwdOpCPU m_gt m_style)
            inImg outImg numPixels m = Returned m'
      /\ forall i, (i < Z.to_nat numPixels)%nat ->
           m' (outImg + 4 * i + 3)%nat = m (inImg + 4 * i + 3)%nat.
Proof.
  intros pf m_gt m_style linear inImg outImg numPixels m Hby Hsse Hb.
  destruct linear.
  - destruct (@LinearFwd_apply_pixels pf m_gt m_style inImg outImg numPixels m Hby Hb)
      as [m' [E [Hpx _]]].
    exists m'. split; [ exact E | ]. intros i Hi.
    change (m' (outImg + 4 * i + 3)%nat) with (px3 (load_pixel m' (outImg + 4 * i))).
    rewrite (Hpx i Hi), LinearFwd_pixel_alpha_without_sse by (apply Hsse; reflexivity).
    reflexivity.
  - destruct (@Fwd_apply_pixels pf m_gt m_style inImg outImg numPixels m Hby Hb)
      as [m' [E [Hpx _]]].
    exists m'. split; [ exact E | ]. intros i Hi.
    change (m' (outImg + 4 * i + 3)%nat) with (px3 (load_pixel m' (outImg + 4 * i))).
    rewrite (Hpx i Hi), Fwd_pixel_alpha. reflexivity.
Qed.

Lemma forward_alpha_preserved_witness :
  exists m',
    apply plain_platform (GradingToneLinearFwdOpCPU (midtone_prop false) GRADING_LIN)
          0 0 2 ramp_mem = Returned m'
    /\ forall i, (i < Z.to_nat 2)%nat ->
         m' (0 + 4 * i + 3)%nat = ramp_mem (0 + 4 * i + 3)%nat.
Proof.
  refine (@forward_alpha_preserved plain_platform (midtone_prop false) GRADING_LIN true
            0 0 2 ramp_mem eq_refl (fun _ => eq_refl) _).
  left. reflexivity.
Defined.

(** With every control neutral the stages are the identity. *)
Lemma run_stages_all_neutral v vpr l px :
  all_neutral v -> run_stages v vpr l px = px.
Proof.
  intros Hn. unfold run_stages. revert px.
  induction l as [ | s l IH]; intros px; simpl; [ reflexivity | ].
  rewrite (run_stage_neutral v vpr s px (Hn s)). apply IH.
Qed.

Lemma std_min_idem (c k : float) : std_min (std_min c k) k = std_min c k.
Proof.
  unfold std_min. destruct (k < c) eqn:E.
  - destruct (k < k) eqn:Ek; reflexivity.
  - rewrite E. reflexivity.
Qed.

Lemma std_min_leb (c k : float) : (c <= k) = true -> std_min c k = c.
Proof. intros H. unfold std_min. rewrite (leb_not_gtb _ _ H). reflexivity. Qed.

(** X6.  Neutral controls without bypass.  When every control converts to
    1.0f the plain forward renderer, even though it is not bypassed and
    whatever the coefficient table holds, does nothing but clamp: each
    output pixel is [ClampMaxRGB] of the input pixel at the same index.  A
    pixel whose colour components are at most 65504 comes out as it is, and
    the renderer applied to its own output changes nothing. *)
Theorem neutral_forward_is_clamp :
  forall (pf : Platform) (m_gt : DynamicPropertyGradingToneImpl) (m_style : GradingStyle)
         (inImg outImg : nat) (numPixels : Z) (m : Mem),
    getLocalBypass m_gt = false ->
    all_neutral (getValue m_gt) ->
    buffers_ok inImg outImg (Z.to_nat numPixels) ->
    exists m',
      apply pf (GradingToneFwdOpCPU m_gt m_style) inImg outImg numPixels m = Returned m'
      /\ (forall i, (i < Z.to_nat numPixels)%nat ->
            let px := load_pixel m (inImg + 4 * i) in
            let px' := load_pixel m' (outImg + 4 * i) in
            px' = ClampMaxRGB px
            /\ ((px0 px <= f65504) = true -> (px1 px <= f65504) = true ->
                (px2 px <= f65504) = true -> px' = px)
            /\ Fwd_pixel (getValue m_gt) (getComputedValue m_gt) px' = px').
Proof.
  intros pf m_gt m_style inImg outImg numPixels m Hby Hn Hb.
  destruct (@Fwd_apply_pixels pf m_gt m_style inImg outImg numPixels m Hby Hb)
    as [m' [E [Hpx _]]].
  exists m'. split; [ exact E | ]. intros i Hi px px'.
  assert (E' : px' = ClampMaxRGB px).
  { unfold px', px. rewrite (Hpx i Hi). unfold Fwd_pixel.
    rewrite run_stages_all_neutral by exact Hn. reflexivity. }
  split; [ exact E' | ]. split.
  - intros H0 H1 H2. rewrite E'. unfold ClampMaxRGB.
    rewrite !std_min_leb by assumption. destruct px; reflexivity.
  - rewrite E'. unfold Fwd_pixel. rewrite run_stages_all_neutral by exact Hn.
    unfold ClampMaxRGB; cbn [px0 px1 px2 px3]. rewrite !std_min_idem. reflexivity.
Qed.

Lemma neutral_tone_all_neutral : all_neutral neutral_tone.
Proof. intros [[ | | | | ] [ | | | ] | ]; reflexivity. Defined.

Lemma neutral_forward_is_clamp_witness :
  exists m',
    apply plain_platform (GradingToneFwdOpCPU (neutral_prop false) GRADING_LOG)
          0 0 2 ramp_mem = Returned m'
    /\ (forall i, (i < Z.to_nat 2)%nat ->
          let px := load_pixel ramp_mem (0 + 4 * i) in
          let px' := load_pixel m' (0 + 4 * i) in
          px' = ClampMaxRGB px
          /\ ((px0 px <= f65504) = true -> (px1 px <= f65504) = true ->
              (px2 px <= f65504) = true -> px' = px)
          /\ Fwd_pixel neutral_tone sample_table px' = px').
Proof.
  refine (@neutral_forward_is_clamp plain_platform (neutral_prop false) GRADING_LOG
            0 0 2 ramp_mem eq_refl neutral_tone_all_neutral _).
  left. reflexivity.
Defined.

(* ================================================================== *)
(** * More binary32 facts *)

Lemma mul_comm (a b : float) : a * b = b * a.
Proof.
  destruct a as [sa|sa| |sa ma ea]; destruct b as [sb|sb| |sb mb eb];
    try reflexivity; try (destruct sa, sb; reflexivity).
  unfold F32.mul, SFmul.
  rewrite (xorb_comm sb sa), (Pos.mul_comm mb ma), (Z.add_comm eb ea). reflexivity.
Qed.

Lemma ltb_irrefl (a : float) : (a < a) = false.
Proof.
  destruct (a < a) eqn:E; [ | reflexivity ].
  rewrite (ltb_asym _ _ E) in E. discriminate.
Qed.

(** A value that compares equal to a finite value other than zero is that
    value. *)
Lemma eqb_finite_eq (a b : float) :
  is_finite_nz b = true -> (a == b) = true -> a = b.
Proof.
  unfold F32.eqb, SFeqb.
  destruct b as [sb|sb| |sb mb eb]; try discriminate. intros _.
  destruct a as [sa|sa| |sa ma ea]; simpl;
    try discriminate; try (destruct sa; discriminate);
    try (destruct sa, sb; discriminate).
  change (Pos.compare_cont Eq) with Pos.compare.
  destruct sa, sb; try discriminate;
    destruct (Z.compare_spec ea eb); try discriminate;
    destruct (Pos.compare_spec ma mb); try discriminate;
    intros _; subst; reflexivity.
Qed.

Lemma ltb_not_eqb (a b : float) : (b < a) = true -> (a == b) = false.
Proof.
  unfold F32.ltb, F32.eqb, SFltb, SFeqb. rewrite (SFcompare_swap b a).
  destruct (SFcompare b a) as [[ | | ]|]; simpl; congruence.
Qed.

Lemma sub_nan_r (a : float) : a - S754_nan = S754_nan.
Proof. destruct a; reflexivity. Qed.

(* ================================================================== *)
(** * The neutral tests of the evaluators *)

(** The clamp of the midtone control does not change its neutral test:
    1.0 lies inside [[0.01, 1.99]]. *)
Lemma Clamp_neutral_test (a : float) : (Clamp a f0_01 f1_99 != f1) = (a != f1).
Proof.
  unfold Clamp, std_min, std_max, F32.neqb. fold (F32.eqb a f1).
  destruct (f0_01 < a) eqn:E1.
  - destruct (f1_99 < a) eqn:E2; [ | reflexivity ].
    assert (H : (f1 < a) = true) by (apply (ltb_trans f1 f1_99 a); [ reflexivity | exact E2 ]).
    rewrite (ltb_not_eqb _ _ H). reflexivity.
  - replace (f1_99 < f0_01) with false by reflexivity.
    destruct (a == f1) eqn:E; [ | reflexivity ].
    apply eqb_finite_eq in E; [ | reflexivity ]. subst a. discriminate E1.
Qed.

(** X7.  The clamp of the midtone control to [[0.01, 1.99]] is inert in
    [mids]: the function is the identity exactly when the control itself
    compares equal to 1.0f, and for every other control - also one outside
    [[0.01, 1.99]], and a NaN - it writes the curve of the coefficient
    table: the scalar curve into the component of a colour channel, the
    master curve into all three colour components. *)
Theorem mids_clamp_is_inert :
  forall (v : GradingTone) (vpr : GradingTonePreRender) (channel : RGBMChannel)
         (out : Pixel),
    let a := GetChannelValue (m_midtones v) channel in
    let k := mid_coeffs vpr channel in
    mids v vpr channel out
    = if a == f1 then out
      else if is_master channel then
        let r := mids_master (mx k 0) (mx k 1) (mx k 2) (mx k 3) (mx k 4) (mx k 5)
                             (my k 0) (my k 1) (my k 2) (my k 3) (my k 4) (my k 5)
                             (mm k 0) (mm k 1) (mm k 2) (mm k 3) (mm k 4) (mm k 5)
                             (float3_of out) in
        mkPixel (v0 r) (v1 r) (v2 r) (px3 out)
      else wr out (channel_index channel)
              (midtone_curve k (rd out (channel_index channel))).
Proof.
  intros v vpr channel out a k. unfold mids. fold a.
  rewrite Clamp_neutral_test. unfold F32.neqb. fold (F32.eqb a f1).
  destruct (a == f1); cbn [negb]; [ reflexivity | ].
  destruct (is_master channel); cbn [negb]; [ reflexivity | ].
  rewrite <- (mids_scalar_midtone_curve k). reflexivity.
Qed.

(* ================================================================== *)
(** * What a stage writes *)

Lemma wr_rd_same (c : RGBMChannel) (out : Pixel) :
  wr out (channel_index c) (rd out (channel_index c)) = out.
Proof. destruct out, c; reflexivity. Qed.

Lemma rd_wr_same (c : RGBMChannel) (out : Pixel) (x : float) :
  rd (wr out (channel_index c) x) (channel_index c) = x.
Proof. destruct c; reflexivity. Qed.

Lemma rd_wr_other (c : RGBMChannel) (out : Pixel) (x : float) (j : nat) :
  is_master c = false -> j <> channel_index c ->
  rd (wr out (channel_index c) x) j = rd out j.
Proof.
  destruct c; simpl; intros Hc Hj; try discriminate;
    destruct j as [ | [ | [ | j]]]; try reflexivity; exfalso; apply Hj; reflexivity.
Qed.

Lemma pixel_eta (out : Pixel) : mkPixel (px0 out) (px1 out) (px2 out) (px3 out) = out.
Proof. destruct out; reflexivity. Qed.

(** [ComputeHS<float>] writes into the component of its channel. *)
Lemma ComputeHS_float_wr channel out val x0 x1 x2 y0 y1 y2 m0 m2 (t : float) :
  ComputeHS channel out val x0 x1 x2 y0 y1 y2 m0 m2 t
  = wr out (channel_index channel) (ComputeHS_res val x0 x1 x2 y0 y1 y2 m0 m2 t).
Proof. reflexivity. Qed.

(** [ComputeWB<float>], called as [whiteBlack] calls it, writes into the
    component of its channel or writes nothing. *)
Lemma ComputeWB_float_wr channel isBlack out val x0 x1 y0 y1 m0 m1 gn :
  ComputeWB channel isBlack out val x0 x1 y0 y1 m0 m1 gn (rd out (channel_index channel))
  = wr out (channel_index channel)
       (ComputeWB_lane isBlack val x0 x1 y0 y1 m0 m1 gn (rd out (channel_index channel))).
Proof.
  unfold ComputeWB_lane, ComputeWB. cbn [Set_ ToneType_float].
  repeat match goal with
         | |- context [if ?c then _ else _] =>
             lazymatch c with
             | negb _ => destruct isBlack; cbn [negb]
             | _ => destruct c
             end
         end; cbn [wr px0 channel_index]; try reflexivity;
    symmetry; apply wr_rd_same.
Qed.

(** The scalar form of each evaluator. *)
Lemma highlightShadow_scalar (v : GradingTone) vpr channel (isShadow : bool) out :
  is_master channel = false ->
  exists x, highlightShadow v vpr channel isShadow out = wr out (channel_index channel) x.
Proof.
  intros Hc. unfold highlightShadow.
  match goal with |- context [if ?c == f1 then _ else _] => destruct (c == f1) end.
  - exists (rd out (channel_index channel)). symmetry. apply wr_rd_same.
  - rewrite Hc. cbn [negb]. rewrite ComputeHS_float_wr. eexists. reflexivity.
Qed.

Lemma whiteBlack_scalar (v : GradingTone) vpr channel (isBlack : bool) out :
  is_master channel = false ->
  exists x, whiteBlack v vpr channel isBlack out = wr out (channel_index channel) x.
Proof.
  intros Hc. unfold whiteBlack. rewrite Hc. cbn [negb].
  rewrite ComputeWB_float_wr. eexists. reflexivity.
Qed.

Lemma mids_scalar_wr (v : GradingTone) vpr channel out :
  is_master channel = false ->
  exists x, mids v vpr channel out = wr out (channel_index channel) x.
Proof.
  intros Hc. unfold mids. destruct (_ != f1).
  - rewrite Hc. cbn [negb]. eexists. reflexivity.
  - exists (rd out (channel_index channel)). symmetry. apply wr_rd_same.
Qed.

(** X8.  A curve stage of a colour channel (R, G or B) changes at most the
    component of its own channel: the two other colour components and the
    fourth float of the pixel come out as they went in, for every band,
    every control and every coefficient table. *)
Theorem channel_stage_frame :
  forall (v : GradingTone) (vpr : GradingTonePreRender) (b : Band) (c : RGBMChannel)
         (out : Pixel) (j : nat),
    is_master c = false ->
    j <> channel_index c ->
    rd (run_stage v vpr (CurveStage b c) out) j = rd out j.
Proof.
  intros v vpr b c out j Hc Hj.
  assert (H : exists x, run_stage v vpr (CurveStage b c) out = wr out (channel_index c) x).
  { destruct b; simpl.
    - apply mids_scalar_wr; exact Hc.
    - apply highlightShadow_scalar; exact Hc.
    - apply whiteBlack_scalar; exact Hc.
    - apply highlightShadow_scalar; exact Hc.
    - apply whiteBlack_scalar; exact Hc. }
  destruct H as [x E]. rewrite E. apply rd_wr_other; assumption.
Qed.

Lemma channel_stage_frame_witness :
  rd (run_stage shadow_white_tone uniform_table (CurveStage White G)
                (pixel_of f0_5 f0_5 f0_5 f1)) 2
  = rd (pixel_of f0_5 f0_5 f0_5 f1) 2.
Proof.
  refine (@channel_stage_frame shadow_white_tone uniform_table White G
            (pixel_of f0_5 f0_5 f0_5 f1) 2 eq_refl _).
  discriminate.
Defined.

(** X9.  A NaN control.  A highlight, shadow, white or black control that
    is a NaN makes its stage a no-op, on a colour channel and on the master
    channel alike: the neutral test fails, and so do both regime tests
    [val < 1] and [val > 1].  (A NaN midtone or contrast control does not:
    there the only test is the neutral test.) *)
Theorem nan_control_is_noop :
  forall (v : GradingTone) (vpr : GradingTonePreRender) (b : Band) (c : RGBMChannel)
         (out : Pixel),
    band_eqb b Midtone = false ->
    is_nan (stage_control v (CurveStage b c)) = true ->
    run_stage v vpr (CurveStage b c) out = out.
Proof.
  intros v vpr b c out Hb Hnan.
  assert (E : stage_control v (CurveStage b c) = S754_nan)
    by (destruct (stage_control v (CurveStage b c)); try discriminate; reflexivity).
  clear Hnan. cbn [stage_control band_control] in E.
  destruct b; try discriminate Hb; cbn [run_stage band_control] in *.
  - unfold highlightShadow. cbn [negb]. rewrite E, sub_nan_r.
    change (S754_nan == f1) with false. cbv iota.
    unfold ComputeHS, ComputeHS_res.
    change (S754_nan < f1) with false. change (S754_nan > f1) with false. cbv iota.
    destruct c; cbn [is_master negb Set_ ToneType_float ToneType_float3 float3_of v0 v1 v2];
      destruct out; reflexivity.
  - unfold whiteBlack. rewrite E. unfold ComputeWB. cbn [negb].
    change (S754_nan < f1) with false. change (S754_nan > f1) with false.
    destruct (is_master c); reflexivity.
  - unfold highlightShadow. cbn [negb]. rewrite E.
    change (S754_nan == f1) with false. cbv iota.
    unfold ComputeHS, ComputeHS_res.
    change (S754_nan < f1) with false. change (S754_nan > f1) with false. cbv iota.
    destruct c; cbn [is_master negb Set_ ToneType_float ToneType_float3 float3_of v0 v1 v2];
      destruct out; reflexivity.
  - unfold whiteBlack. rewrite E. unfold ComputeWB. cbn [negb]. rewrite sub_nan_r.
    change (S754_nan < f1) with false. change (S754_nan > f1) with false.
    destruct (is_master c); reflexivity.
Qed.

Lemma nan_control_is_noop_witness :
  run_stage nan_highlights_tone uniform_table (CurveStage Highlight M)
            (pixel_of f0_5 f2 f3 f1)
  = pixel_of f0_5 f2 f3 f1.
Proof.
  exact (@nan_control_is_noop nan_highlights_tone uniform_table Highlight M
           (pixel_of f0_5 f2 f3 f1) eq_refl eq_refl).
Defined.

(* ================================================================== *)
(** * The templates on [float3], lane by lane *)

Lemma float3_of_mkPixel (a b c d : float) :
  float3_of (mkPixel a b c d) = mkFloat3 a b c.
Proof. reflexivity. Qed.

Section Lanes.

(** One of the three lanes of a [float3]. *)
Variable g : float3 -> float.
Hypothesis Hg : g = v0 \/ g = v1 \/ g = v2.

Ltac lane := destruct Hg as [-> | [-> | ->]]; reflexivity.

Lemma lane_add_tf (a : float3) (p : float) : g (a :+ p) = g a + p.
Proof. lane. Qed.
Lemma lane_add_ft (p : float) (a : float3) : g (p +: a) = p + g a.
Proof. rewrite (add_comm p (g a)). lane. Qed.
Lemma lane_add_tt (a b : float3) : g (a :+: b) = g a + g b.
Proof. lane. Qed.
Lemma lane_sub_tf (a : float3) (p : float) : g (a :- p) = g a - p.
Proof. lane. Qed.
Lemma lane_sub_ft (p : float) (a : float3) : g (p -: a) = p - g a.
Proof. lane. Qed.
Lemma lane_mul_tf (a : float3) (p : float) : g (a :* p) = g a * p.
Proof. lane. Qed.
Lemma lane_mul_ft (p : float) (a : float3) : g (p *: a) = p * g a.
Proof. rewrite (mul_comm p (g a)). lane. Qed.
Lemma lane_mul_tt (a b : float3) : g (a :*: b) = g a * g b.
Proof. lane. Qed.
Lemma lane_div_tf (a : float3) (p : float) : g (a :/ p) = g a / p.
Proof. lane. Qed.
Lemma lane_div_tt (a b : float3) : g (a :/: b) = g a / g b.
Proof. lane. Qed.
Lemma lane_setOnLimit (val : float3) (limit : float) (below above : float3) :
  g (setOnLimit val limit below above)
  = if g val < limit then g below else g above.
Proof. lane. Qed.
Lemma lane_Sqrt (a : float3) : g (Sqrt a) = sqrtf (g a).
Proof. lane. Qed.
Lemma lane_eta (r : float3) : g (mkFloat3 (v0 r) (v1 r) (v2 r)) = g r.
Proof. lane. Qed.

Ltac lanes :=
  repeat match goal with
         | |- context [g (setOnLimit ?v ?l ?b ?a)] => rewrite (lane_setOnLimit v l b a)
         | |- context [g (add_tf ?a ?p)] => rewrite (lane_add_tf a p)
         | |- context [g (add_ft ?p ?a)] => rewrite (lane_add_ft p a)
         | |- context [g (add_tt ?a ?b)] => rewrite (lane_add_tt a b)
         | |- context [g (sub_tf ?a ?p)] => rewrite (lane_sub_tf a p)
         | |- context [g (sub_ft ?p ?a)] => rewrite (lane_sub_ft p a)
         | |- context [g (mul_tf ?a ?p)] => rewrite (lane_mul_tf a p)
         | |- context [g (mul_ft ?p ?a)] => rewrite (lane_mul_ft p a)
         | |- context [g (mul_tt ?a ?b)] => rewrite (lane_mul_tt a b)
         | |- context [g (div_tf ?a ?p)] => rewrite (lane_div_tf a p)
         | |- context [g (div_tt ?a ?b)] => rewrite (lane_div_tt a b)
         | |- context [g (Sqrt ?a)] => rewrite (lane_Sqrt a)
         end.

(** Every lane of [ComputeHS<float3>] is [ComputeHS<float>] of that lane. *)
Lemma lane_ComputeHS_res (val x0 x1 x2 y0 y1 y2 m0 m2 : float) (t : float3) :
  g (ComputeHS_res val x0 x1 x2 y0 y1 y2 m0 m2 t)
  = ComputeHS_res val x0 x1 x2 y0 y1 y2 m0 m2 (g t).
Proof.
  unfold ComputeHS_res.
  destruct (val < f1); [ | destruct (val > f1); [ | reflexivity ] ];
    lanes;
    cbn [add_tf add_ft add_tt sub_tf sub_ft mul_tf mul_ft mul_tt div_tf div_tt
         setOnLimit Sqrt ToneType_float];
    reflexivity.
Qed.

(** Every lane of [ComputeWB<float3>] is [ComputeWB<float>] of that lane. *)
Lemma lane_ComputeWB (isBlack : bool) (out : Pixel)
    (val x0 x1 y0 y1 m0 m1 gn : float) :
  g (float3_of (ComputeWB M isBlack out val x0 x1 y0 y1 m0 m1 gn (float3_of out)))
  = ComputeWB_lane isBlack val x0 x1 y0 y1 m0 m1 gn (g (float3_of out)).
Proof.
  unfold ComputeWB_lane, ComputeWB.
  destruct (_ < f1); [ | destruct (_ > f1); [ destruct isBlack | ] ];
    cbn [negb Set_ ToneType_float ToneType_float3 px0 wr channel_index];
    try rewrite float3_of_mkPixel; try rewrite lane_eta; lanes;
    cbn [add_tf add_ft add_tt sub_tf sub_ft mul_tf mul_ft mul_tt div_tf div_tt
         setOnLimit Sqrt ToneType_float];
    reflexivity.
Qed.

End Lanes.

(* ================================================================== *)
(** * The master stage and the three channel stages *)

Lemma lane_v0 : @eq (float3 -> float) v0 v0 \/ @eq (float3 -> float) v0 v1 \/ @eq (float3 -> float) v0 v2.
Proof. left. reflexivity. Qed.
Lemma lane_v1 : @eq (float3 -> float) v1 v0 \/ @eq (float3 -> float) v1 v1 \/ @eq (float3 -> float) v1 v2.
Proof. right. left. reflexivity. Qed.
Lemma lane_v2 : @eq (float3 -> float) v2 v0 \/ @eq (float3 -> float) v2 v1 \/ @eq (float3 -> float) v2 v2.
Proof. right. right. reflexivity. Qed.

(** X10.  Highlights and shadows: master is R, G, B.  When the control and
    the coefficients of the channels R, G and B are those of the master
    channel, the master stage of the band computes exactly what the three
    channel stages compute one after the other: [ComputeHS] is one template
    for both, and every lane of its [float3] instance is its [float]
    instance, also at the breakpoints. *)
Theorem highlightShadow_master_is_RGB :
  forall (v : GradingTone) (vpr : GradingTonePreRender) (isShadow : bool) (out : Pixel),
    hs_like_master v vpr isShadow R ->
    hs_like_master v vpr isShadow G ->
    hs_like_master v vpr isShadow B ->
    highlightShadow v vpr M isShadow out
    = highlightShadow v vpr B isShadow
        (highlightShadow v vpr G isShadow (highlightShadow v vpr R isShadow out)).
Proof.
  intros v vpr isShadow [a b c d].
  intros (HvR & HxR & HyR & HmR) (HvG & HxG & HyG & HmG) (HvB & HxB & HyB & HmB).
  unfold side in *. unfold highlightShadow.
  cbn [is_master negb].
  assert (HvR' : (if isShadow then GetChannelValue (m_shadows v) R
                  else GetChannelValue (m_highlights v) R)
                 = (if isShadow then GetChannelValue (m_shadows v) M
                    else GetChannelValue (m_highlights v) M))
    by (destruct isShadow; exact HvR).
  assert (HvG' : (if isShadow then GetChannelValue (m_shadows v) G
                  else GetChannelValue (m_highlights v) G)
                 = (if isShadow then GetChannelValue (m_shadows v) M
                    else GetChannelValue (m_highlights v) M))
    by (destruct isShadow; exact HvG).
  assert (HvB' : (if isShadow then GetChannelValue (m_shadows v) B
                  else GetChannelValue (m_highlights v) B)
                 = (if isShadow then GetChannelValue (m_shadows v) M
                    else GetChannelValue (m_highlights v) M))
    by (destruct isShadow; exact HvB).
  rewrite HvR', HvG', HvB', !HxR, !HyR, !HmR, !HxG, !HyG, !HmG, !HxB, !HyB, !HmB.
  match goal with
  | |- context [if ?val == f1 then _ else _] => destruct (val == f1)
  end; [ reflexivity | ].
  rewrite !ComputeHS_float_wr. unfold ComputeHS.
  cbn [Set_ ToneType_float3 wr rd channel_index px0 px1 px2 px3].
  rewrite (lane_ComputeHS_res lane_v0), (lane_ComputeHS_res lane_v1),
    (lane_ComputeHS_res lane_v2).
  reflexivity.
Qed.

Lemma uniform_table_hs (isShadow : bool) (c : RGBMChannel) :
  hs_like_master shadow_white_tone uniform_table isShadow c.
Proof. destruct isShadow, c; repeat split; reflexivity. Defined.

Lemma highlightShadow_master_is_RGB_witness :
  highlightShadow shadow_white_tone uniform_table M true (pixel_of f0_5 f1 f3 f1)
  = highlightShadow shadow_white_tone uniform_table B true
      (highlightShadow shadow_white_tone uniform_table G true
         (highlightShadow shadow_white_tone uniform_table R true
            (pixel_of f0_5 f1 f3 f1))).
Proof.
  exact (@highlightShadow_master_is_RGB shadow_white_tone uniform_table true
           (pixel_of f0_5 f1 f3 f1)
           (uniform_table_hs true R) (uniform_table_hs true G) (uniform_table_hs true B)).
Defined.

(** The master form of [whiteBlack]. *)
Lemma whiteBlack_master_lanes (isBlack : bool) (out : Pixel)
    (val x0 x1 y0 y1 m0 m1 gn : float) :
  ComputeWB M isBlack out val x0 x1 y0 y1 m0 m1 gn (float3_of out)
  = mkPixel (ComputeWB_lane isBlack val x0 x1 y0 y1 m0 m1 gn (px0 out))
            (ComputeWB_lane isBlack val x0 x1 y0 y1 m0 m1 gn (px1 out))
            (ComputeWB_lane isBlack val x0 x1 y0 y1 m0 m1 gn (px2 out))
            (px3 out).
Proof.
  rewrite <- (pixel_eta (ComputeWB M isBlack out val x0 x1 y0 y1 m0 m1 gn (float3_of out))).
  rewrite px3_ComputeWB_float3.
  change (px0 out) with (v0 (float3_of out)).
  change (px1 out) with (v1 (float3_of out)).
  change (px2 out) with (v2 (float3_of out)).
  rewrite <- (lane_ComputeWB lane_v0), <- (lane_ComputeWB lane_v1),
    <- (lane_ComputeWB lane_v2).
  reflexivity.
Qed.

(** X11.  Whites and blacks: master is R, G, B.  When the control, the
    coefficients and the gain of the channels R, G and B are those of the
    master channel, the master stage of the band computes exactly what the
    three channel stages compute one after the other, in every regime of
    [ComputeWB]. *)
Theorem whiteBlack_master_is_RGB :
  forall (v : GradingTone) (vpr : GradingTonePreRender) (isBlack : bool) (out : Pixel),
    wb_like_master v vpr isBlack R ->
    wb_like_master v vpr isBlack G ->
    wb_like_master v vpr isBlack B ->
    whiteBlack v vpr M isBlack out
    = whiteBlack v vpr B isBlack
        (whiteBlack v vpr G isBlack (whiteBlack v vpr R isBlack out)).
Proof.
  intros v vpr isBlack [a b c d].
  intros (HvR & HxR & HyR & HmR & HgR) (HvG & HxG & HyG & HmG & HgG)
         (HvB & HxB & HyB & HmB & HgB).
  unfold side in *. unfold whiteBlack.
  cbn [is_master negb].
  assert (HvR' : (if isBlack then GetChannelValue (m_blacks v) R
                  else GetChannelValue (m_whites v) R)
                 = (if isBlack then GetChannelValue (m_blacks v) M
                    else GetChannelValue (m_whites v) M))
    by (destruct isBlack; exact HvR).
  assert (HvG' : (if isBlack then GetChannelValue (m_blacks v) G
                  else GetChannelValue (m_whites v) G)
                 = (if isBlack then GetChannelValue (m_blacks v) M
                    else GetChannelValue (m_whites v) M))
    by (destruct isBlack; exact HvG).
  assert (HvB' : (if isBlack then GetChannelValue (m_blacks v) B
                  else GetChannelValue (m_whites v) B)
                 = (if isBlack then GetChannelValue (m_blacks v) M
                    else GetChannelValue (m_whites v) M))
    by (destruct isBlack; exact HvB).
  rewrite HvR', HvG', HvB', !HxR, !HyR, !HmR, HgR, !HxG, !HyG, !HmG, HgG,
    !HxB, !HyB, !HmB, HgB.
  rewrite whiteBlack_master_lanes.
  rewrite (ComputeWB_float_wr R). cbn [wr rd channel_index px0 px1 px2 px3].
  rewrite (ComputeWB_float_wr G). cbn [wr rd channel_index px0 px1 px2 px3].
  rewrite (ComputeWB_float_wr B). cbn [wr rd channel_index px0 px1 px2 px3].
  reflexivity.
Qed.

Lemma uniform_table_wb (isBlack : bool) (c : RGBMChannel) :
  wb_like_master shadow_white_tone uniform_table isBlack c.
Proof. destruct isBlack, c; repeat split; reflexivity. Defined.

Lemma whiteBlack_master_is_RGB_witness :
  whiteBlack shadow_white_tone uniform_table M false (pixel_of f0_5 f1 f3 f1)
  = whiteBlack shadow_white_tone uniform_table B false
      (whiteBlack shadow_white_tone uniform_table G false
         (whiteBlack shadow_white_tone uniform_table R false
            (pixel_of f0_5 f1 f3 f1))).
Proof.
  exact (@whiteBlack_master_is_RGB shadow_white_tone uniform_table false
           (pixel_of f0_5 f1 f3 f1)
           (uniform_table_wb false R) (uniform_table_wb false G) (uniform_table_wb false B)).
Defined.

(* ================================================================== *)
(** * The master Midtone Curve at its knots *)

Lemma sub_self (x : float) : is_finite x = true -> x - x = S754_zero false.
Proof.
  destruct x as [s|s| |s m e]; try discriminate; intros _.
  - destruct s; reflexivity.
  - unfold F32.sub, SFsub. rewrite Z.sub_diag. reflexivity.
Qed.

Lemma div_zero_l (z d : float) :
  is_zero z = true -> is_finite_nz d = true -> is_zero (z / d) = true.
Proof. destruct z; try discriminate; destruct d; try discriminate; reflexivity. Qed.

Lemma mul_zero_l (z a : float) :
  is_zero z = true -> is_finite a = true -> is_zero (z * a) = true.
Proof. destruct z; try discriminate; destruct a; try discriminate; reflexivity. Qed.

Lemma add_zero_l_finite (z a : float) :
  is_zero z = true -> is_finite a = true -> is_finite (z + a) = true.
Proof.
  destruct z as [sz| | | ]; try discriminate;
    destruct a as [sa| | | ]; try discriminate; intros _ _;
    [ destruct sz, sa | ]; reflexivity.
Qed.

Lemma add_zero_l (z y : float) :
  is_zero z = true -> is_finite_nz y = true -> z + y = y.
Proof. destruct z; try discriminate; destruct y; try discriminate; reflexivity. Qed.

(** The blend of a segment at its left end is the left ordinate. *)
Lemma blend_left_end (xl xr yl ml mr : float) :
  is_finite xl = true -> is_finite_nz (xr - xl) = true ->
  is_finite (mr - ml) = true -> is_finite ml = true -> is_finite_nz yl = true ->
  blend xl xr yl ml mr xl = yl.
Proof.
  intros Hx Hw Hd Hm Hy. unfold blend. cbv zeta.
  rewrite (sub_self _ Hx).
  assert (Hu : is_zero (S754_zero false / (xr - xl)) = true)
    by (apply div_zero_l; [ reflexivity | exact Hw ]).
  set (u := S754_zero false / (xr - xl)) in *.
  apply add_zero_l; [ | exact Hy ].
  apply mul_zero_l.
  - apply mul_zero_l; [ exact Hu | ]. destruct (xr - xl); try discriminate; reflexivity.
  - apply add_zero_l_finite; [ | exact Hm ].
    apply mul_zero_l; [ | exact Hd ].
    apply mul_zero_l; [ exact Hu | reflexivity ].
Qed.

(** A lane of the master path, written with [blend]. *)
Lemma mids_master_lane_eq (k : MidCoeffs) (t : float) :
  mids_master_lane k t
  = let res := if t < mx k 1 then segment k 0 t else segment k 1 t in
    let res := if t < mx k 2 then res else segment k 2 t in
    let res := if t < mx k 3 then res else segment k 3 t in
    let res := if t < mx k 4 then res else segment k 4 t in
    let res := if t < mx k 0 then (t - mx k 0) * mm k 0 + my k 0 else res in
    if t < mx k 5 then res else (t - mx k 5) * mm k 5 + my k 5.
Proof. reflexivity. Qed.

(** X12.  The master path of the Midtone Curve passes through its knots.
    For a table with strictly increasing breakpoints and finite
    coefficients (ordinates other than zero, widths that neither vanish
    nor overflow), a component equal to the breakpoint [x_i] is sent to
    the ordinate [y_i], exactly, for each of the six knots: at a breakpoint
    the master path evaluates the segment or extrapolation that starts
    there.  The scalar path does so at [x0] and [x1]; from [x2] on it
    evaluates the segment that ends at the breakpoint. *)
Theorem master_midtone_hits_knots :
  forall (k : MidCoeffs) (i : nat),
    increasing_breakpoints k ->
    finite_knots k = true ->
    (i <= 5)%nat ->
    mids_master_lane k (mx k i) = my k i
    /\ ((i <= 1)%nat -> midtone_curve k (mx k i) = my k i)
    /\ ((2 <= i)%nat ->
          midtone_curve k (mx k i) = segment k (i - 1) (mx k i)).
Proof.
  intros k i (L01 & L12 & L23 & L34 & L45) Hf Hi.
  unfold finite_knots in Hf. cbn [forallb] in Hf.
  repeat match goal with
         | H : (_ && _)%bool = true |- _ => apply andb_prop in H; destruct H
         end.
  assert (L02 := ltb_trans _ _ _ L01 L12). assert (L03 := ltb_trans _ _ _ L02 L23).
  assert (L04 := ltb_trans _ _ _ L03 L34). assert (L05 := ltb_trans _ _ _ L04 L45).
  assert (L13 := ltb_trans _ _ _ L12 L23). assert (L14 := ltb_trans _ _ _ L13 L34).
  assert (L15 := ltb_trans _ _ _ L14 L45). assert (L24 := ltb_trans _ _ _ L23 L34).
  assert (L25 := ltb_trans _ _ _ L24 L45). assert (L35 := ltb_trans _ _ _ L34 L45).
  rewrite mids_master_lane_eq. unfold midtone_curve, select_segment, F32.gtb.
  change SFltb with F32.ltb. cbv zeta.
  destruct i as [ | [ | [ | [ | [ | [ | i]]]]]]; [ | | | | | | lia ];
    rewrite ?ltb_irrefl, ?L01, ?L02, ?L03, ?L04, ?L05, ?L12, ?L13, ?L14, ?L15,
      ?L23, ?L24, ?L25, ?L34, ?L35, ?L45,
      ?(ltb_asym _ _ L01), ?(ltb_asym _ _ L02), ?(ltb_asym _ _ L03),
      ?(ltb_asym _ _ L04), ?(ltb_asym _ _ L05), ?(ltb_asym _ _ L12),
      ?(ltb_asym _ _ L13), ?(ltb_asym _ _ L14), ?(ltb_asym _ _ L15),
      ?(ltb_asym _ _ L23), ?(ltb_asym _ _ L24), ?(ltb_asym _ _ L25),
      ?(ltb_asym _ _ L34), ?(ltb_asym _ _ L35), ?(ltb_asym _ _ L45);
    cbv iota;
    (split; [ | split; [ intros Hle | intros Hge ] ]);
    try lia; try reflexivity;
    try (unfold segment; apply blend_left_end; assumption).
  rewrite sub_self by assumption.
  apply add_zero_l; [ | assumption ].
  apply mul_zero_l; [ reflexivity | assumption ].
Qed.

Lemma master_midtone_hits_knots_witness :
  mids_master_lane (mid_coeffs sample_table M) (mx (mid_coeffs sample_table M) 2)
  = my (mid_coeffs sample_table M) 2
  /\ midtone_curve (mid_coeffs sample_table R) (mx (mid_coeffs sample_table R) 1)
     = my (mid_coeffs sample_table R) 1
  /\ midtone_curve (mid_coeffs sample_table R) (mx (mid_coeffs sample_table R) 2)
     = segment (mid_coeffs sample_table R) (2 - 1) (mx (mid_coeffs sample_table R) 2).
Proof.
  assert (Hinc : increasing_breakpoints (mid_coeffs sample_table M))
    by (repeat split; reflexivity).
  split; [ | split ].
  - refine (proj1 (@master_midtone_hits_knots (mid_coeffs sample_table M) 2
                     Hinc eq_refl _)).
    apply le_S, le_S, le_S, le_n.
  - refine (proj1 (proj2 (@master_midtone_hits_knots (mid_coeffs sample_table R) 1
                            Hinc eq_refl _)) (le_n 1)).
    apply le_S, le_S, le_S, le_S, le_n.
  - refine (proj2 (proj2 (@master_midtone_hits_knots (mid_coeffs sample_table R) 2
                            Hinc eq_refl _)) (le_n 2)).
    apply le_S, le_S, le_S, le_n.
Defined.

(* ================================================================== *)
(** * The range of the contrast control *)

Lemma leb_cases (a b : float) :
  (a <= b) = true -> (a < b) = true \/ (b == a) = true.
Proof.
  unfold F32.leb, F32.ltb, F32.eqb, SFleb, SFltb, SFeqb.
  rewrite (SFcompare_swap a b).
  destruct (SFcompare a b) as [[ | | ]|]; simpl; intros H; try discriminate; auto.
Qed.

Lemma eqb_sym (a b : float) : (a == b) = (b == a).
Proof.
  unfold F32.eqb, SFeqb. rewrite (SFcompare_swap b a).
  destruct (SFcompare b a) as [[ | | ]|]; reflexivity.
Qed.

Lemma scontrast_remap_high (c : float) :
  (f1_99 <= c) = true ->
  (c != f1) = true /\ scontrast_remap c = scontrast_remap f1_99.
Proof.
  intros H. destruct (leb_cases _ _ H) as [L | E].
  - assert (L1 : (f1 < c) = true)
      by (apply (ltb_trans f1 f1_99 c); [ reflexivity | exact L ]).
    split.
    + unfold F32.neqb. fold (F32.eqb c f1). rewrite (ltb_not_eqb _ _ L1). reflexivity.
    + unfold scontrast_remap, std_min, F32.gtb. change SFltb with F32.ltb.
      rewrite L1, L. reflexivity.
  - apply eqb_finite_eq in E; [ | reflexivity ]. subst c. split; reflexivity.
Qed.

Lemma scontrast_remap_low (c : float) :
  (c <= f0_01) = true ->
  (c != f1) = true /\ scontrast_remap c = scontrast_remap f0_01.
Proof.
  intros H.
  assert (N1 : (f1 < c) = false).
  { destruct (f1 < c) eqn:E; [ | reflexivity ].
    assert (L : (f0_01 < c) = true)
      by (apply (ltb_trans f0_01 f1 c); [ reflexivity | exact E ]).
    rewrite (leb_not_gtb _ _ H) in L. discriminate. }
  assert (N2 : (c == f1) = false).
  { destruct (c == f1) eqn:E; [ | reflexivity ].
    apply eqb_finite_eq in E; [ | reflexivity ]. subst c. discriminate H. }
  split.
  - unfold F32.neqb. fold (F32.eqb c f1). rewrite N2. reflexivity.
  - unfold scontrast_remap, std_max, F32.gtb. change SFltb with F32.ltb.
    rewrite N1. destruct (leb_cases _ _ H) as [L | E].
    + rewrite L. reflexivity.
    + rewrite eqb_sym in E. apply eqb_finite_eq in E; [ | reflexivity ].
      rewrite E. reflexivity.
Qed.

(** X13.  The contrast control saturates.  Every contrast of at least 1.99
    (also an infinite one) gives the result of the contrast 1.99, and every
    contrast of at most 0.01 (zero, a negative one, minus infinity) gives
    the result of the contrast 0.01: [scontrast] computes the same pixel for
    any two controls on the same side beyond these limits. *)
Theorem scontrast_saturates :
  forall (v v' : GradingTone) (vpr : GradingTonePreRender) (out : Pixel),
    let c := float_of_double (m_scontrast v) in
    let c' := float_of_double (m_scontrast v') in
    ((f1_99 <= c) = true /\ (f1_99 <= c') = true)
    \/ ((c <= f0_01) = true /\ (c' <= f0_01) = true) ->
    scontrast v vpr out = scontrast v' vpr out.
Proof.
  intros v v' vpr out c c' H. unfold scontrast. fold c c'.
  destruct H as [[H1 H2] | [H1 H2]].
  - destruct (scontrast_remap_high _ H1) as [N1 R1].
    destruct (scontrast_remap_high _ H2) as [N2 R2].
    rewrite N1, N2, R1, R2. reflexivity.
  - destruct (scontrast_remap_low _ H1) as [N1 R1].
    destruct (scontrast_remap_low _ H2) as [N2 R2].
    rewrite N1, N2, R1, R2. reflexivity.
Qed.

(* ================================================================== *)
(** * The renderer for an op data *)



Lemma scontrast_saturates_witness :
  scontrast (mkGradingTone neutral_controls neutral_controls neutral_controls
               neutral_controls neutral_controls
               (S754_finite false 4503599627370496 (-51)))
            sample_table (pixel_of f3 f0_5 f1 f1)
  = scontrast (mkGradingTone neutral_controls neutral_controls neutral_controls
                 neutral_controls neutral_controls
                 (S754_finite false 4503599627370496 (-50)))
              sample_table (pixel_of f3 f0_5 f1 f1).
Proof.
  refine (@scontrast_saturates _ _ sample_table (pixel_of f3 f0_5 f1 f1) _).
  left. split; reflexivity.
Defined.


(* ================================================================== *)
(** * The channels stay apart *)

Lemma channel_local_wr (c : RGBMChannel) (f : float -> float) (F : Pixel -> Pixel) :
  is_master c = false ->
  (forall px, F px = wr px (channel_index c) (f (rd px (channel_index c)))) ->
  channel_local F.
Proof.
  intros Hc HF px px' i H. rewrite !HF.
  destruct (Nat.eq_dec i (channel_index c)) as [-> | Hi].
  - rewrite !rd_wr_same, H. reflexivity.
  - rewrite !rd_wr_other by assumption. exact H.
Qed.

Lemma channel_local_lanes (f0 f1' f2' : float -> float) (F : Pixel -> Pixel) :
  (forall px, F px = mkPixel (f0 (px0 px)) (f1' (px1 px)) (f2' (px2 px)) (px3 px)) ->
  channel_local F.
Proof.
  intros HF px px' i H. rewrite !HF.
  destruct i as [ | [ | [ | i]]]; cbn [rd px0 px1 px2 px3] in *; rewrite H; reflexivity.
Qed.

Lemma channel_local_id : channel_local (fun px => px).
Proof. intros px px' i H. exact H. Qed.

Lemma channel_local_compose (F G : Pixel -> Pixel) :
  channel_local F -> channel_local G -> channel_local (fun px => G (F px)).
Proof. intros HF HG px px' i H. apply HG, HF, H. Qed.

Lemma channel_local_ext (F G : Pixel -> Pixel) :
  (forall px, F px = G px) -> channel_local G -> channel_local F.
Proof. intros E HG px px' i H. rewrite !E. apply HG, H. Qed.

(** The master path of the Midtone Curve works lane by lane. *)
Lemma mids_master_lanes (k : MidCoeffs) (a b c : float) :
  mids_master (mx k 0) (mx k 1) (mx k 2) (mx k 3) (mx k 4) (mx k 5)
              (my k 0) (my k 1) (my k 2) (my k 3) (my k 4) (my k 5)
              (mm k 0) (mm k 1) (mm k 2) (mm k 3) (mm k 4) (mm k 5)
              (mkFloat3 a b c)
  = mkFloat3 (mids_master_lane k a) (mids_master_lane k b) (mids_master_lane k c).
Proof.
  unfold mids_master_lane, mids_master, float3_setOnLimit.
  cbn [v0 v1 v2 sub_tf div_tf mul_tf mul_tt add_tf ToneType_float3
       float3_sub_f float3_div_f float3_mul_f float3_mul float3_add_f].
  reflexivity.
Qed.

Lemma mids_local v vpr c : channel_local (mids v vpr c).
Proof.
  unfold mids. destruct (_ != f1); [ | apply channel_local_id ].
  destruct (is_master c) eqn:Hc; cbn [negb].
  - set (k := mid_coeffs vpr c).
    apply (@channel_local_lanes (mids_master_lane k) (mids_master_lane k)
             (mids_master_lane k)).
    intros [a b d e]. unfold float3_of. cbn [px0 px1 px2 px3].
    change (m_midX vpr c) with (mx k). change (m_midY vpr c) with (my k).
    change (m_midM vpr c) with (mm k).
    rewrite mids_master_lanes. reflexivity.
  - eapply (@channel_local_wr c); [ exact Hc | ]. intros px. reflexivity.
Qed.

Lemma highlightShadow_local v vpr c isShadow : channel_local (highlightShadow v vpr c isShadow).
Proof.
  unfold highlightShadow.
  match goal with |- context [if ?x == f1 then _ else _] => destruct (x == f1) end;
    [ apply channel_local_id | ].
  destruct (is_master c) eqn:Hc; cbn [negb].
  - match goal with
    | |- channel_local (fun out => ComputeHS _ out ?val ?x0 ?x1 ?x2 ?y0 ?y1 ?y2 ?m0 ?m2 _) =>
        apply (@channel_local_lanes (ComputeHS_res val x0 x1 x2 y0 y1 y2 m0 m2)
                 (ComputeHS_res val x0 x1 x2 y0 y1 y2 m0 m2)
                 (ComputeHS_res val x0 x1 x2 y0 y1 y2 m0 m2))
    end.
    intros px. unfold ComputeHS. cbn [Set_ ToneType_float3].
    rewrite (lane_ComputeHS_res lane_v0), (lane_ComputeHS_res lane_v1),
      (lane_ComputeHS_res lane_v2).
    reflexivity.
  - eapply (@channel_local_wr c); [ exact Hc | ]. intros px.
    rewrite ComputeHS_float_wr. reflexivity.
Qed.

Lemma whiteBlack_local v vpr c isBlack : channel_local (whiteBlack v vpr c isBlack).
Proof.
  unfold whiteBlack.
  destruct (is_master c) eqn:Hc; cbn [negb].
  - eapply channel_local_lanes. intros px. destruct c; try discriminate Hc.
    apply whiteBlack_master_lanes.
  - eapply (@channel_local_wr c); [ exact Hc | ]. intros px.
    rewrite ComputeWB_float_wr. reflexivity.
Qed.

Lemma scontrast_local v vpr : channel_local (scontrast v vpr).
Proof.
  unfold scontrast. destruct (_ != f1); [ | apply channel_local_id ].
  set (c := scontrast_remap _).
  apply (@channel_local_lanes
           (fun t => match contrast_correction (m_scX vpr) (m_scY vpr) (m_scM vpr) t with
                     | Some r => r
                     | None => (t - m_pivot vpr) * c + m_pivot vpr
                     end)
           (fun t => match contrast_correction (m_scX vpr) (m_scY vpr) (m_scM vpr) t with
                     | Some r => r
                     | None => (t - m_pivot vpr) * c + m_pivot vpr
                     end)
           (fun t => match contrast_correction (m_scX vpr) (m_scY vpr) (m_scM vpr) t with
                     | Some r => r
                     | None => (t - m_pivot vpr) * c + m_pivot vpr
                     end)).
  intros px.
  rewrite (scontrast_color_component vpr c (float3_of px) lane_v0),
    (scontrast_color_component vpr c (float3_of px) lane_v1),
    (scontrast_color_component vpr c (float3_of px) lane_v2).
  reflexivity.
Qed.

Lemma ClampMaxRGB_local : channel_local ClampMaxRGB.
Proof.
  apply (@channel_local_lanes (fun c => std_min c f65504) (fun c => std_min c f65504)
           (fun c => std_min c f65504)).
  intros px. reflexivity.
Qed.

Lemma run_stage_local v vpr s : channel_local (run_stage v vpr s).
Proof.
  destruct s as [[ | | | | ] c | ]; cbn [run_stage].
  - apply mids_local.
  - apply highlightShadow_local.
  - apply whiteBlack_local.
  - apply highlightShadow_local.
  - apply whiteBlack_local.
  - apply scontrast_local.
Qed.

Lemma run_stages_local v vpr l : channel_local (run_stages v vpr l).
Proof.
  unfold run_stages. induction l as [ | s l IH]; intros px px' i H; simpl.
  - exact H.
  - apply IH. apply run_stage_local. exact H.
Qed.

(** X15.  No cross-talk.  Through the whole plain pipeline - every stage in
    order, master stages and symmetric contrast included, and the clamp - an
    output component depends on the input component at the same place
    only: two pixels with the same red component get the same red output,
    whatever their other components are, and likewise for green, blue and
    the fourth float.  The same holds for every single stage. *)
Theorem forward_pixel_channels_apart :
  forall (v : GradingTone) (vpr : GradingTonePreRender) (px px' : Pixel) (i : nat),
    rd px i = rd px' i ->
    rd (Fwd_pixel v vpr px) i = rd (Fwd_pixel v vpr px') i
    /\ forall s, rd (run_stage v vpr s px) i = rd (run_stage v vpr s px') i.
Proof.
  intros v vpr px px' i H. split.
  - unfold Fwd_pixel. apply ClampMaxRGB_local, run_stages_local, H.
  - intros s. apply run_stage_local, H.
Qed.

Lemma forward_pixel_channels_apart_witness :
  rd (Fwd_pixel midtone_tone sample_table (pixel_of f3 f1 f2 f1)) 0
  = rd (Fwd_pixel midtone_tone sample_table (pixel_of f3 f0_5 f4 f2)) 0
  /\ forall s,
       rd (run_stage midtone_tone sample_table s (pixel_of f3 f1 f2 f1)) 0
       = rd (run_stage midtone_tone sample_table s (pixel_of f3 f0_5 f4 f2)) 0.
Proof.
  exact (@forward_pixel_channels_apart midtone_tone sample_table
           (pixel_of f3 f1 f2 f1) (pixel_of f3 f0_5 f4 f2) 0 eq_refl).
Defined.

(* ================================================================== *)
(** * In place and out of place *)

(** X16.  In place or not.  A forward [apply] that is not bypassed leaves
    the same output pixels whether it works in place ([outImg == inImg]) or
    writes to a separate buffer that does not overlap the input: the note
    in the source, that 'in' and 'out' could be pointers to the same
    memory buffer, costs nothing.  For the linear style the build must be
    the same on both sides, with [USE_SSE] or without. *)
Theorem forward_in_place_matches :
  forall (pf : Platform) (m_gt : DynamicPropertyGradingToneImpl) (m_style : GradingStyle)
         (linear : bool) (inImg outImg : nat) (numPixels : Z) (m : Mem),
    getLocalBypass m_gt = false ->
    (inImg + 4 * Z.to_nat numPixels <= outImg
     \/ outImg + 4 * Z.to_nat numPixels <= inImg)%nat ->
    let op := if linear then GradingToneLinearFwdOpCPU m_gt m_style
              else GradingToneFwdOpCPU m_gt m_style in
    exists m_sep m_same,
      apply pf op inImg outImg numPixels m = Returned m_sep
      /\ apply pf op inImg inImg numPixels m = Returned m_same
      /\ forall i, (i < Z.to_nat numPixels)%nat ->
           load_pixel m_sep (outImg + 4 * i) = load_pixel m_same (inImg + 4 * i).
Proof.
  intros pf m_gt m_style linear inImg outImg numPixels m Hby Hd op. unfold op.
  destruct linear.
  - destruct (@LinearFwd_apply_pixels pf m_gt m_style inImg outImg numPixels m Hby)
      as [m1 [E1 [P1 _]]]; [ right; exact Hd | ].
    destruct (@LinearFwd_apply_pixels pf m_gt m_style inImg inImg numPixels m Hby)
      as [m2 [E2 [P2 _]]]; [ left; reflexivity | ].
    exists m1, m2. split; [ exact E1 | split; [ exact E2 | ] ].
    intros i Hi. rewrite (P1 i Hi), (P2 i Hi). reflexivity.
  - destruct (@Fwd_apply_pixels pf m_gt m_style inImg outImg numPixels m Hby)
      as [m1 [E1 [P1 _]]]; [ right; exact Hd | ].
    destruct (@Fwd_apply_pixels pf m_gt m_style inImg inImg numPixels m Hby)
      as [m2 [E2 [P2 _]]]; [ left; reflexivity | ].
    exists m1, m2. split; [ exact E1 | split; [ exact E2 | ] ].
    intros i Hi. rewrite (P1 i Hi), (P2 i Hi). reflexivity.
Qed.

Lemma forward_in_place_matches_witness :
  exists m_sep m_same,
    apply plain_platform (GradingToneFwdOpCPU (midtone_prop false) GRADING_LOG)
          0 8 2 ramp_mem = Returned m_sep
    /\ apply plain_platform (GradingToneFwdOpCPU (midtone_prop false) GRADING_LOG)
             0 0 2 ramp_mem = Returned m_same
    /\ forall i, (i < Z.to_nat 2)%nat ->
         load_pixel m_sep (8 + 4 * i) = load_pixel m_same (0 + 4 * i).
Proof.
  refine (@forward_in_place_matches plain_platform (midtone_prop false) GRADING_LOG
            false 0 8 2 ramp_mem eq_refl _).
  left. vm_compute. repeat constructor.
Defined.

(* ================================================================== *)
(** * The two builds of "Lin to log" *)

(** X17.  Below the break point the two builds agree.  On a lane whose
    input is less than [xbrk] the block "Lin to log" under [USE_SSE] gives
    exactly what the block without [USE_SSE] gives for that component,
    [x * gain + offs], whatever [sseLog2] and [std::log] compute: the
    approximated logarithm is masked out. *)
Theorem lin_to_log_builds_agree_below_break :
  forall (pf : Platform) (pix : m128),
    ((l0 pix < xbrk) = true -> l0 (sse_lin_to_log pf pix) = lin_to_log pf (l0 pix))
    /\ ((l1 pix < xbrk) = true -> l1 (sse_lin_to_log pf pix) = lin_to_log pf (l1 pix))
    /\ ((l2 pix < xbrk) = true -> l2 (sse_lin_to_log pf pix) = lin_to_log pf (l2 pix)).
Proof.
  intros pf pix.
  repeat split; intros H; unfold lin_to_log; rewrite H;
    unfold sse_lin_to_log, mm_select, mm_cmpgt_ps, mm_set1_ps, mm_add_ps, mm_mul_ps,
      mm_lanes, F32.gtb;
    cbn [l0 l1 l2 l3 k0 k1 k2 k3];
    match goal with
    | |- context [SFltb xbrk ?x] => change (SFltb xbrk x) with (xbrk < x)
    end;
    rewrite (ltb_asym _ _ H); reflexivity.
Qed.

Lemma lin_to_log_builds_agree_below_break_witness :
  l0 (sse_lin_to_log plain_platform (mk128 fzero f1 f1 f1))
  = lin_to_log plain_platform (l0 (mk128 fzero f1 f1 f1)).
Proof.
  exact (proj1 (lin_to_log_builds_agree_below_break plain_platform
                  (mk128 fzero f1 f1 f1)) eq_refl).
Defined.
